(** * IceVision backend: session lifecycle and consumption reconciliation

    A shallow embedding of [src/main.py] (FastAPI + SQLAlchemy) and the
    properties of its session endpoints.

    Modelling conventions.
    - Python [int] is [Z]; [DateTime] is a [Z] time stamp; a nullable column
      or an [Optional] field is an [option].
    - The backend is MySQL ([db_url], driver [mysql+pymysql]): an [Integer]
      column is a signed 32-bit INT, and in strict mode, the default, the
      database refuses a value outside that range when the session is
      flushed, which [db.commit()] does first.  Only values that a handler
      takes from a request or computes are checked: a value read from an
      Integer column fits an Integer column.  Lengths of strings are not
      modelled.
    - A table is the list of its rows in storage order; a query without
      ORDER BY returns the matching rows in that order, and the SQL
      comparison [col == value] is equality, false on NULL.
    - A Python [dict] is an association list in insertion order with
      distinct keys; the keys of the snapshots are labels, [None] included.
    - The SQLAlchemy session of a request is a connection holding the
      committed tables and the pending (uncommitted) view; [db.commit()]
      publishes the pending view or raises, and [get_db] drops whatever is
      uncommitted when the handler leaves, normally or by an exception.
    - An exception is either the [HTTPException] a handler raises or an
      error it does not catch ([TypeError], [DataError]), which the
      framework answers with status 500.
    - [datetime.utcnow()] is an oracle [utcnow : nat -> Z]: the n-th reading
      of the wall clock since the server started. *)

From Stdlib Require Import ZArith String List Bool Lia Permutation Sorted.
Import ListNotations.

Local Open Scope string_scope.
Local Open Scope list_scope.
Local Open Scope Z_scope.

(** ** Python values *)

Module Py.

(** Truth value of an [Optional[int]]: [None] and [0] are false. *)
Definition truthy_int (o : option Z) : bool :=
  match o with
  | None => false
  | Some n => negb (n =? 0)
  end.

(** Truth value of an [Optional[str]]: [None] and the empty string are
    false. *)
Definition truthy_str (o : option string) : bool :=
  match o with
  | None => false
  | Some s => negb (s =? "")%string
  end.

End Py.

(** ** SQL columns *)

Module Sql.

(** The range of a MySQL INT column. *)
Definition Integer_min : Z := -2147483648.
Definition Integer_max : Z := 2147483647.

(** Whether an [Integer] column takes the value [n]. *)
Definition fits_Integer (n : Z) : bool :=
  (Integer_min <=? n) && (n <=? Integer_max).

(** The same for a nullable column: NULL always fits. *)
Definition fits_nullable (o : option Z) : bool :=
  match o with
  | Some n => fits_Integer n
  | None => true
  end.

End Sql.

(** ** Python dictionaries keyed by labels *)

Module Dict.

(** A key is a value of the nullable column [vision_items.label]. *)
Definition key : Type := option string.

(** [k == k'] on keys *)
Definition key_eqb (k k' : key) : bool :=
  match k, k' with
  | Some x, Some y => (x =? y)%string
  | None, None => true
  | _, _ => false
  end.

Section Dict.

Context {V : Type}.

Definition t : Type := list (key * V).

Definition empty : t := [].

(** [d[k] = v]: an existing key keeps its position, a new key goes last. *)
Fixpoint set (d : t) (k : key) (v : V) : t :=
  match d with
  | [] => [(k, v)]
  | (k', v') :: d' =>
      if key_eqb k' k then (k', v) :: d' else (k', v') :: set d' k v
  end.

(** [d.get(k)] *)
Fixpoint get (d : t) (k : key) : option V :=
  match d with
  | [] => None
  | (k', v') :: d' => if key_eqb k' k then Some v' else get d' k
  end.

(** [d.get(k, default)] *)
Definition get_default (d : t) (k : key) (default : V) : V :=
  match get d k with
  | Some v => v
  | None => default
  end.

(** [d.items()], in insertion order. *)
Definition items (d : t) : list (key * V) := d.

Definition keys (d : t) : list key := map fst d.

(** [{k: v for (k, v) in kvs}] *)
Definition comprehension (kvs : list (key * V)) : t :=
  fold_left (fun d kv => set d (fst kv) (snd kv)) kvs empty.

End Dict.
End Dict.

(** ** ORM models (the tables) *)

Module Employee.
Record t := mk {
  id : Z;
  employee_code : string;
  name : string;
  email : option string;
  department : option string;
  face_photo_url : option string;
  face_photo_key : option string;
  face_descriptor : option string;
  is_active : bool;
  created_at : option Z;
  updated_at : option Z
}.

Definition with_id (i : Z) (e : t) : t :=
  mk i (employee_code e) (name e) (email e) (department e)
     (face_photo_url e) (face_photo_key e) (face_descriptor e)
     (is_active e) (created_at e) (updated_at e).
End Employee.

Module FridgeSession.
Record t := mk {
  id : Z;
  employee_id : Z;
  device_id : string;
  opened_at : option Z;
  closed_at : option Z;
  capture_before_id : option Z;
  capture_after_id : option Z;
  status : string;
  notes : option string
}.

Definition with_id (i : Z) (s : t) : t :=
  mk i (employee_id s) (device_id s) (opened_at s) (closed_at s)
     (capture_before_id s) (capture_after_id s) (status s) (notes s).

(** The four assignments of [session_close] to the loaded row. *)
Definition close (at_ : Z) (before after : option Z) (s : t) : t :=
  mk (id s) (employee_id s) (device_id s) (opened_at s)
     (Some at_) before after "closed" (notes s).

(** Whether the database takes the capture ids of the row. *)
Definition fits (s : t) : bool :=
  Sql.fits_nullable (capture_before_id s)
  && Sql.fits_nullable (capture_after_id s).
End FridgeSession.

Module VisionItem.
Record t := mk {
  id : Z;
  capture_id : option Z;
  label : option string;
  quantity : option Z
}.
End VisionItem.

Module ConsumptionEvent.
Record t := mk {
  id : Z;
  session_id : Z;
  employee_id : Z;
  product_label : option string;
  quantity : Z;
  created_at : option Z
}.

Definition with_id (i : Z) (e : t) : t :=
  mk i (session_id e) (employee_id e) (product_label e) (quantity e)
     (created_at e).

(** Whether the database takes the quantity of the row. *)
Definition fits (e : t) : bool := Sql.fits_Integer (quantity e).
End ConsumptionEvent.

(** ** Request and response schemas *)

Module EmployeeCreate.
Record t := mk {
  employee_code : string;
  name : string;
  email : option string;
  department : option string;
  face_photo_base64 : string;
  face_descriptor : string
}.
End EmployeeCreate.

Module EmployeeOut.
Record t := mk {
  id : Z;
  employee_code : string;
  name : string;
  email : option string;
  department : option string;
  face_photo_url : option string;
  face_descriptor : option string
}.

Definition from_orm (e : Employee.t) : t :=
  mk (Employee.id e) (Employee.employee_code e) (Employee.name e)
     (Employee.email e) (Employee.department e)
     (Employee.face_photo_url e) (Employee.face_descriptor e).
End EmployeeOut.

Module SessionStartRequest.
Record t := mk {
  employee_code : string;
  device_id : string
}.
End SessionStartRequest.

Module SessionStartResponse.
Record t := mk {
  success : bool;
  session_id : Z;
  employee : EmployeeOut.t
}.
End SessionStartResponse.

Module SessionCloseRequest.
Record t := mk {
  session_id : Z;
  capture_before_id : option Z;
  capture_after_id : option Z
}.
End SessionCloseRequest.

(** One element of the [consumed] list: [{"label": .., "quantity": ..}]. *)
Module Consumed.
Record t := mk {
  label : option string;
  quantity : Z
}.
End Consumed.

Module SessionCloseResponse.
Record t := mk {
  success : bool;
  session_id : Z;
  consumed : list Consumed.t
}.
End SessionCloseResponse.

Module SessionListItem.
Record t := mk {
  id : Z;
  employee_id : Z;
  employee_code : string;
  employee_name : string;
  device_id : string;
  opened_at : option Z;
  closed_at : option Z;
  capture_before_id : option Z;
  capture_after_id : option Z;
  status : string;
  notes : option string
}.
End SessionListItem.

Module EmployeeCreateResponse.
Record t := mk {
  success : bool;
  employee_id : Z;
  photo_url : option string
}.
End EmployeeCreateResponse.

(** ** The database *)

Record Database := mkDatabase {
  employees : list Employee.t;
  fridge_sessions : list FridgeSession.t;
  vision_items : list VisionItem.t;
  consumption_events : list ConsumptionEvent.t
}.

Definition empty_database : Database := mkDatabase [] [] [] [].

(** AUTO_INCREMENT primary key: one more than the largest key in use. *)
Definition next_id (ids : list Z) : Z := 1 + fold_right Z.max 0 ids.

(** [query.first()] *)
Definition first {A : Type} (rows : list A) : option A :=
  match rows with
  | [] => None
  | r :: _ => Some r
  end.

Definition insert_employee (e : Employee.t) (db : Database) : Database :=
  mkDatabase (employees db ++ [e]) (fridge_sessions db) (vision_items db)
             (consumption_events db).

Definition insert_session (s : FridgeSession.t) (db : Database) : Database :=
  mkDatabase (employees db) (fridge_sessions db ++ [s]) (vision_items db)
             (consumption_events db).

(** UPDATE fridge_sessions SET ... WHERE id = [FridgeSession.id s] *)
Definition update_session (s : FridgeSession.t) (db : Database) : Database :=
  mkDatabase (employees db)
             (map (fun r => if FridgeSession.id r =? FridgeSession.id s
                            then s else r) (fridge_sessions db))
             (vision_items db) (consumption_events db).

Definition insert_event (e : ConsumptionEvent.t) (db : Database) : Database :=
  mkDatabase (employees db) (fridge_sessions db) (vision_items db)
             (consumption_events db ++ [e]).

Definition employees_by_code (code : string) (db : Database)
  : list Employee.t :=
  filter (fun e => (Employee.employee_code e =? code)%string) (employees db).

Definition sessions_by_id (sid : Z) (db : Database) : list FridgeSession.t :=
  filter (fun s => FridgeSession.id s =? sid) (fridge_sessions db).

(** [VisionItem.capture_id == cid] for an optional [cid]: a comparison
    with NULL, on either side, selects no row. *)
Definition items_of_capture (cid : option Z) (db : Database)
  : list VisionItem.t :=
  match cid with
  | Some c =>
      filter (fun i => match VisionItem.capture_id i with
                       | Some x => x =? c
                       | None => false
                       end) (vision_items db)
  | None => []
  end.

(** The rows of [fridge_sessions JOIN employees ON
    fridge_sessions.employee_id = employees.id], with the two selected
    employee columns. *)
Definition join_employees (db : Database)
  : list (FridgeSession.t * string * string) :=
  flat_map
    (fun s =>
       map (fun e => (s, Employee.employee_code e, Employee.name e))
           (filter (fun e => FridgeSession.employee_id s =? Employee.id e)
                   (employees db)))
    (fridge_sessions db).

(** [Employee.employee_code == employee_code] on a joined row. *)
Definition code_is (employee_code : option string)
           (row : FridgeSession.t * string * string) : bool :=
  match employee_code with
  | Some c => (snd (fst row) =? c)%string
  | None => false
  end.

(** Order of [opened_at] values under ORDER BY: NULL sorts below every
    time stamp. *)
Definition opened_geb (a b : option Z) : bool :=
  match a, b with
  | _, None => true
  | None, Some _ => false
  | Some x, Some y => y <=? x
  end.

Definition row_opened_at (row : FridgeSession.t * string * string)
  : option Z :=
  FridgeSession.opened_at (fst (fst row)).

(** ORDER BY opened_at DESC, as a stable insertion sort. *)
Fixpoint insert_desc (row : FridgeSession.t * string * string)
         (sorted : list (FridgeSession.t * string * string)) :=
  match sorted with
  | [] => [row]
  | r :: rest =>
      if opened_geb (row_opened_at row) (row_opened_at r)
      then row :: r :: rest
      else r :: insert_desc row rest
  end.

Definition order_by_opened_at_desc
           (rows : list (FridgeSession.t * string * string)) :=
  fold_right insert_desc [] rows.

Definition list_item (row : FridgeSession.t * string * string)
  : SessionListItem.t :=
  let '(s, code, emp_name) := row in
  SessionListItem.mk (FridgeSession.id s) (FridgeSession.employee_id s)
    code emp_name (FridgeSession.device_id s) (FridgeSession.opened_at s)
    (FridgeSession.closed_at s) (FridgeSession.capture_before_id s)
    (FridgeSession.capture_after_id s) (FridgeSession.status s)
    (FridgeSession.notes s).

(** ** Request handlers: state, errors, the clock *)

Inductive HTTPException := HTTPError (status_code : Z) (detail : string).

(** What a handler can end in instead of an answer. *)
Inductive Exception :=
| Raised (e : HTTPException)
| TypeError
| DataError.

Coercion Raised : HTTPException >-> Exception.

(** [refused] records that a row put into the unit of work holds a value
    its column does not take: the flush will raise. *)
Record Conn := mkConn {
  committed : Database;
  pending : Database;
  reads : nat;
  refused : bool
}.

Definition Handler (A : Type) : Type := Conn -> Conn * (Exception + A).

Definition ret {A} (a : A) : Handler A := fun c => (c, inr a).

Definition bind {A B} (m : Handler A) (k : A -> Handler B) : Handler B :=
  fun c =>
    match m c with
    | (c', inr a) => k a c'
    | (c', inl e) => (c', inl e)
    end.

Definition raise {A} (e : Exception) : Handler A := fun c => (c, inl e).

Declare Scope handler_scope.
Delimit Scope handler_scope with handler.
Notation "x <- m ;; k" := (bind m (fun x => k))
  (at level 100, m at next level, right associativity) : handler_scope.
Notation "m ;; k" := (bind m (fun _ => k))
  (at level 100, right associativity) : handler_scope.
Local Open Scope handler_scope.

(** [db.query(...)]: reads the pending view. *)
Definition query {A} (q : Database -> A) : Handler A :=
  fun c => (c, inr (q (pending c))).

(** A change of a loaded row, written at the next flush; [fits] tells
    whether the database takes the new values. *)
Definition mutate (fits : bool) (f : Database -> Database) : Handler unit :=
  fun c => (mkConn (committed c) (f (pending c)) (reads c)
                   (refused c || negb fits), inr tt).

(** [db.commit()]: the flush raises when a row was refused, and nothing is
    published. *)
Definition commit : Handler unit :=
  fun c =>
    if refused c then (c, inl DataError)
    else (mkConn (pending c) (pending c) (reads c) false, inr tt).

(** [db.add(obj)] for new rows: the key is taken from the table's counter
    and the completed row is handed back (what [db.refresh] would load). *)
Definition add_employee (e : Employee.t) : Handler Employee.t :=
  fun c =>
    let e' := Employee.with_id
                (next_id (map Employee.id (employees (pending c)))) e in
    (mkConn (committed c) (insert_employee e' (pending c)) (reads c)
            (refused c), inr e').

Definition add_session (s : FridgeSession.t) : Handler FridgeSession.t :=
  fun c =>
    let s' := FridgeSession.with_id
                (next_id (map FridgeSession.id (fridge_sessions (pending c))))
                s in
    (mkConn (committed c) (insert_session s' (pending c)) (reads c)
            (refused c || negb (FridgeSession.fits s')), inr s').

Definition add_event (e : ConsumptionEvent.t) : Handler unit :=
  fun c =>
    let e' := ConsumptionEvent.with_id
                (next_id (map ConsumptionEvent.id
                              (consumption_events (pending c)))) e in
    (mkConn (committed c) (insert_event e' (pending c)) (reads c)
            (refused c || negb (ConsumptionEvent.fits e')), inr tt).

Section Endpoints.

Variable utcnow : nat -> Z.

(** [now()] *)
Definition now : Handler Z :=
  fun c => (mkConn (committed c) (pending c) (S (reads c)) (refused c),
            inr (utcnow (reads c))).

(** [create_employee] *)
Definition create_employee (payload : EmployeeCreate.t)
  : Handler EmployeeCreateResponse.t :=
  existing <- query (fun db =>
    first (employees_by_code (EmployeeCreate.employee_code payload) db)) ;;
  match existing with
  | Some _ => raise (HTTPError 409 "Código de colaborador já existe")
  | None =>
      let photo_url := None in
      let photo_key := None in
      created <- now ;;
      updated <- now ;;
      emp <- add_employee
               (Employee.mk 0
                  (EmployeeCreate.employee_code payload)
                  (EmployeeCreate.name payload)
                  (EmployeeCreate.email payload)
                  (EmployeeCreate.department payload)
                  photo_url photo_key
                  (Some (EmployeeCreate.face_descriptor payload))
                  true (Some created) (Some updated)) ;;
      commit ;;
      ret (EmployeeCreateResponse.mk true (Employee.id emp)
             (Employee.face_photo_url emp))
  end.

(** [session_start] *)
Definition session_start (payload : SessionStartRequest.t)
  : Handler SessionStartResponse.t :=
  emp <- query (fun db =>
    first (employees_by_code
             (SessionStartRequest.employee_code payload) db)) ;;
  match emp with
  | None => raise (HTTPError 404 "Colaborador não encontrado")
  | Some emp =>
      opened <- now ;;
      session <- add_session
                   (FridgeSession.mk 0 (Employee.id emp)
                      (SessionStartRequest.device_id payload)
                      (Some opened) None None None "open" None) ;;
      commit ;;
      ret (SessionStartResponse.mk true (FridgeSession.id session)
             (EmployeeOut.from_orm emp))
  end.

(** The dictionary [{i.label: i.quantity for i in rows}]. *)
Definition label_quantities (rows : list VisionItem.t)
  : Dict.t (V := option Z) :=
  Dict.comprehension
    (map (fun i => (VisionItem.label i, VisionItem.quantity i)) rows).

(** The loop of [session_close] over [before_items.items()]; [consumed]
    is the list built so far.  The subtraction raises [TypeError] when a
    quantity is [None]. *)
Fixpoint reconcile (session : FridgeSession.t)
         (after_items : Dict.t (V := option Z))
         (items : list (Dict.key * option Z)) (consumed : list Consumed.t)
  : Handler (list Consumed.t) :=
  match items with
  | [] => ret consumed
  | (label, qty_before) :: rest =>
      let qty_after := Dict.get_default after_items label (Some 0) in
      match qty_before, qty_after with
      | Some qty_before, Some qty_after =>
          let delta := qty_before - qty_after in
          if delta >? 0 then
            created <- now ;;
            add_event (ConsumptionEvent.mk 0 (FridgeSession.id session)
                         (FridgeSession.employee_id session)
                         label delta (Some created)) ;;
            reconcile session after_items rest
                      (consumed ++ [Consumed.mk label delta])
          else
            reconcile session after_items rest consumed
      | _, _ => raise TypeError
      end
  end.

(** [session_close] *)
Definition session_close (payload : SessionCloseRequest.t)
  : Handler SessionCloseResponse.t :=
  session <- query (fun db =>
    first (sessions_by_id (SessionCloseRequest.session_id payload) db)) ;;
  match session with
  | None => raise (HTTPError 404 "Sessão não encontrada")
  | Some session =>
      closed <- now ;;
      let session :=
        FridgeSession.close closed
          (SessionCloseRequest.capture_before_id payload)
          (SessionCloseRequest.capture_after_id payload) session in
      mutate (FridgeSession.fits session) (update_session session) ;;
      consumed <-
        (if Py.truthy_int (SessionCloseRequest.capture_before_id payload)
            && Py.truthy_int (SessionCloseRequest.capture_after_id payload)
         then
           before_items <- query (fun db =>
             label_quantities
               (items_of_capture
                  (SessionCloseRequest.capture_before_id payload) db)) ;;
           after_items <- query (fun db =>
             label_quantities
               (items_of_capture
                  (SessionCloseRequest.capture_after_id payload) db)) ;;
           reconcile session after_items (Dict.items before_items) []
         else ret []) ;;
      commit ;;
      ret (SessionCloseResponse.mk true (FridgeSession.id session) consumed)
  end.

(** [sessions_list]: the query is
    SELECT .. FROM fridge_sessions JOIN employees ON .. [WHERE ..]
    ORDER BY fridge_sessions.opened_at DESC. *)
Definition sessions_list (employee_code : option string)
  : Handler (list SessionListItem.t) :=
  rows <- query (fun db =>
    let q := join_employees db in
    let q := if Py.truthy_str employee_code
             then filter (code_is employee_code) q
             else q in
    order_by_opened_at_desc q) ;;
  ret (map list_item rows).

End Endpoints.

(** ** The server *)

Record Server := mkServer {
  store : Database;
  clock : nat
}.

Definition boot : Server := mkServer empty_database 0.

(** One request: [get_db] opens a connection on the committed tables, the
    handler runs, and the connection is closed, which discards what was not
    committed. *)
Definition endpoint {A} (h : Handler A) (sv : Server)
  : Server * (Exception + A) :=
  let (c, r) := h (mkConn (store sv) (store sv) (clock sv) false) in
  (mkServer (committed c) (reads c), r).

Inductive Request :=
| PostEmployeeCreate (payload : EmployeeCreate.t)
| PostSessionStart (payload : SessionStartRequest.t)
| PostSessionClose (payload : SessionCloseRequest.t)
| GetSessionsList (employee_code : option string)
| VisionPipeline (rows : list VisionItem.t).

(** The state after a request.  [VisionPipeline] is the external detection
    pipeline, which owns [vision_items] and may leave any rows there. *)
Definition serve (utcnow : nat -> Z) (sv : Server) (r : Request) : Server :=
  match r with
  | PostEmployeeCreate p => fst (endpoint (create_employee utcnow p) sv)
  | PostSessionStart p => fst (endpoint (session_start utcnow p) sv)
  | PostSessionClose p => fst (endpoint (session_close utcnow p) sv)
  | GetSessionsList c => fst (endpoint (sessions_list c) sv)
  | VisionPipeline rows =>
      mkServer (mkDatabase (employees (store sv)) (fridge_sessions (store sv))
                           rows (consumption_events (store sv)))
               (clock sv)
  end.

Definition serve_all (utcnow : nat -> Z) (sv : Server) (rs : list Request)
  : Server :=
  fold_left (serve utcnow) rs sv.

(** ** A worked scenario

    Two employees, one open session each, and the detections of seven
    captures: capture 1 sees milk 5 and soda 2; capture 2 sees milk 3 and
    beer 9; capture 3 sees milk 5, soda 0 and beer -2; capture 5 sees milk
    2147483647 and capture 6 milk -2, both within the Integer column;
    capture 7 has a milk row without a quantity.  No row belongs to capture
    0, capture 4 or capture 9223372036854775808. *)

Definition fixture_clock (n : nat) : Z := 1000 + Z.of_nat n.

Definition fixture_requests : list Request :=
  [ PostEmployeeCreate (EmployeeCreate.mk "E1" "Ana" None None "" "[0.1]");
    PostEmployeeCreate (EmployeeCreate.mk "E2" "Bia" None None "" "[0.2]");
    PostSessionStart (SessionStartRequest.mk "E1" "fridge-1");
    PostSessionStart (SessionStartRequest.mk "E2" "fridge-1");
    VisionPipeline
      [ VisionItem.mk 1 (Some 1) (Some "milk") (Some 5);
        VisionItem.mk 2 (Some 1) (Some "soda") (Some 2);
        VisionItem.mk 3 (Some 2) (Some "milk") (Some 3);
        VisionItem.mk 4 (Some 2) (Some "beer") (Some 9);
        VisionItem.mk 5 (Some 3) (Some "milk") (Some 5);
        VisionItem.mk 6 (Some 3) (Some "soda") (Some 0);
        VisionItem.mk 7 (Some 3) (Some "beer") (Some (-2));
        VisionItem.mk 8 (Some 5) (Some "milk") (Some 2147483647);
        VisionItem.mk 9 (Some 6) (Some "milk") (Some (-2));
        VisionItem.mk 10 (Some 7) (Some "milk") None ] ].

Definition fixture : Server := serve_all fixture_clock boot fixture_requests.

(** Session 1 of the scenario, as [session_start] left it. *)
Definition fixture_session : FridgeSession.t :=
  FridgeSession.mk 1 1 "fridge-1" (Some 1004) None None None "open" None.

(** The scenario after session 1 was closed with captures 1 and 2. *)
Definition fixture_closed : Server :=
  serve fixture_clock fixture
        (PostSessionClose (SessionCloseRequest.mk 1 (Some 1) (Some 2))).

(** Session 1 after that close. *)
Definition fixture_closed_session : FridgeSession.t :=
  FridgeSession.mk 1 1 "fridge-1" (Some 1004) (Some 1006) (Some 1) (Some 2)
                   "closed" None.

(** A capture id no Integer column takes. *)
Definition huge : Z := 9223372036854775808.

(** ** Closed forms used in the statements *)

(** The difference the loop computes for one item of the before-dictionary,
    [None] where the subtraction raises [TypeError]. *)
Definition delta (after_items : Dict.t (V := option Z))
           (kv : Dict.key * option Z) : option Z :=
  match snd kv, Dict.get_default after_items (fst kv) (Some 0) with
  | Some qty_before, Some qty_after => Some (qty_before - qty_after)
  | _, _ => None
  end.

(** The consumption list of the loop in closed form: the labels of the
    before-dictionary, in order, whose quantity exceeds the one after;
    [None] when a subtraction of the loop raises [TypeError]. *)
Fixpoint depletions (before_items after_items : Dict.t (V := option Z))
  : option (list Consumed.t) :=
  match before_items with
  | [] => Some []
  | kv :: rest =>
      match delta after_items kv, depletions rest after_items with
      | Some d, Some ds =>
          Some (if d >? 0 then Consumed.mk (fst kv) d :: ds else ds)
      | _, _ => None
      end
  end.

(** What a ledger row says about consumption. *)
Definition event_entry (ev : ConsumptionEvent.t) : Consumed.t :=
  Consumed.mk (ConsumptionEvent.product_label ev)
              (ConsumptionEvent.quantity ev).

Definition append_events (evs : list ConsumptionEvent.t) (db : Database)
  : Database :=
  mkDatabase (employees db) (fridge_sessions db) (vision_items db)
             (consumption_events db ++ evs).

Definition has_label (l : Dict.key) (c : Consumed.t) : bool :=
  Dict.key_eqb (Consumed.label c) l.

Definition about_label (l : Dict.key) (ev : ConsumptionEvent.t) : bool :=
  Dict.key_eqb (ConsumptionEvent.product_label ev) l.

(** Ledger rows of one (session, label) pair. *)
Definition ledger_entries (sid : Z) (l : Dict.key) (db : Database)
  : list ConsumptionEvent.t :=
  filter (fun ev => (ConsumptionEvent.session_id ev =? sid)
                    && about_label l ev)
         (consumption_events db).

(** Number of close calls for session [sid] in a request sequence. *)
Definition close_calls (sid : Z) (rs : list Request) : nat :=
  length (filter (fun r => match r with
                           | PostSessionClose p =>
                               SessionCloseRequest.session_id p =? sid
                           | _ => false
                           end) rs).

(** The employee row a session points to. *)
Definition employee_of (db : Database) (s : FridgeSession.t)
  : option Employee.t :=
  first (filter (fun e => FridgeSession.employee_id s =? Employee.id e)
                (employees db)).

(** Whether the sessions of employee [e] are listed for the argument
    [employee_code] of [sessions_list]: an absent or empty argument lists
    everybody. *)
Definition listed (employee_code : option string) (e : Employee.t) : bool :=
  match employee_code with
  | Some c =>
      if (c =? "")%string then true
      else (Employee.employee_code e =? c)%string
  | None => true
  end.

(** [opened_at] of the first item is not below that of the second. *)
Definition not_before (x y : SessionListItem.t) : Prop :=
  opened_geb (SessionListItem.opened_at x) (SessionListItem.opened_at y)
  = true.

(** The before- or after-dictionary of a close, as the handler builds it. *)
Definition snapshot (cid : option Z) (db : Database)
  : Dict.t (V := option Z) :=
  label_quantities (items_of_capture cid db).

(** The guard of the reconciliation block. *)
Definition both_captures (p : SessionCloseRequest.t) : bool :=
  Py.truthy_int (SessionCloseRequest.capture_before_id p)
  && Py.truthy_int (SessionCloseRequest.capture_after_id p).

(** Whether a close with request [p] can be carried through on the tables
    [db]: the capture ids of the request fit the Integer column and, when
    the loop runs, none of its subtractions meets a missing quantity and
    every difference it records fits the Integer column. *)
Definition commits (db : Database) (p : SessionCloseRequest.t) : bool :=
  Sql.fits_nullable (SessionCloseRequest.capture_before_id p)
  && Sql.fits_nullable (SessionCloseRequest.capture_after_id p)
  && (if both_captures p
      then match depletions
                   (snapshot (SessionCloseRequest.capture_before_id p) db)
                   (snapshot (SessionCloseRequest.capture_after_id p) db)
           with
           | Some ds =>
               forallb (fun c => Sql.fits_Integer (Consumed.quantity c)) ds
           | None => false
           end
      else true).

(** Whether an item of a dictionary holds a positive quantity. *)
Definition positive (kv : Dict.key * option Z) : bool :=
  match snd kv with
  | Some q => q >? 0
  | None => false
  end.

(** A consumed entry as an item of a dictionary. *)
Definition as_item (c : Consumed.t) : Dict.key * option Z :=
  (Consumed.label c, Some (Consumed.quantity c)).

(** The row a successful [session_start] inserts. *)
Definition opened_row (utcnow : nat -> Z) (sv : Server)
           (p : SessionStartRequest.t) (emp : Employee.t)
  : FridgeSession.t :=
  FridgeSession.mk
    (next_id (map FridgeSession.id (fridge_sessions (store sv))))
    (Employee.id emp) (SessionStartRequest.device_id p)
    (Some (utcnow (clock sv))) None None None "open" None.

(** ** Integrity of the tables *)

(** A session row is either open, with no close time and no captures, or
    closed, with a close time. *)
Definition lifecycle (s : FridgeSession.t) : Prop :=
  (FridgeSession.status s = "open"
   /\ FridgeSession.closed_at s = None
   /\ FridgeSession.capture_before_id s = None
   /\ FridgeSession.capture_after_id s = None)
  \/ (FridgeSession.status s = "closed"
      /\ FridgeSession.closed_at s <> None).

(** Primary keys of [employees] and [fridge_sessions], and the unique
    index on [employee_code]. *)
Definition keyed (db : Database) : Prop :=
  NoDup (map Employee.id (employees db))
  /\ NoDup (map Employee.employee_code (employees db))
  /\ NoDup (map FridgeSession.id (fridge_sessions db)).

(** The foreign key of [fridge_sessions.employee_id]. *)
Definition sessions_owned (db : Database) : Prop :=
  forall s, In s (fridge_sessions db) ->
    exists e, In e (employees db)
              /\ Employee.id e = FridgeSession.employee_id s.

(** Every ledger row names a closed session and that session's employee. *)
Definition ledger_backed (db : Database) : Prop :=
  forall ev, In ev (consumption_events db) ->
    exists s, In s (fridge_sessions db)
              /\ FridgeSession.id s = ConsumptionEvent.session_id ev
              /\ FridgeSession.employee_id s
                 = ConsumptionEvent.employee_id ev
              /\ FridgeSession.status s = "closed".

(** Every session was opened at an earlier clock reading and, if it has a
    close time, was closed at a reading taken no earlier than that. *)
Definition timely (utcnow : nat -> Z) (sv : Server) : Prop :=
  forall s, In s (fridge_sessions (store sv)) ->
    exists i, (i < clock sv)%nat
              /\ FridgeSession.opened_at s = Some (utcnow i)
              /\ (FridgeSession.closed_at s = None
                  \/ exists j, (i <= j < clock sv)%nat
                               /\ FridgeSession.closed_at s
                                  = Some (utcnow j)).

(** ** Listing employees

    ORDER BY employees.name follows the collation of the column, which the
    source does not fix: the order is the parameter [name_leb]. *)

Section EmployeesList.

Variable name_leb : string -> string -> bool.

Fixpoint insert_by_name (e : Employee.t) (sorted : list Employee.t)
  : list Employee.t :=
  match sorted with
  | [] => [e]
  | x :: rest =>
      if name_leb (Employee.name e) (Employee.name x)
      then e :: x :: rest
      else x :: insert_by_name e rest
  end.

Definition order_by_name (rows : list Employee.t) : list Employee.t :=
  fold_right insert_by_name [] rows.

(** [list_employees] *)
Definition list_employees : Handler (list EmployeeOut.t) :=
  emps <- query (fun db => order_by_name (employees db)) ;;
  ret (map EmployeeOut.from_orm emps).

End EmployeesList.


(** ** Dictionaries *)

Module DictFacts.

Lemma key_eqb_spec (k k' : Dict.key) : reflect (k = k') (Dict.key_eqb k k').
Proof.
  destruct k as [x|], k' as [y|]; cbn; try (constructor; congruence).
  destruct (String.eqb_spec x y); constructor; congruence.
Qed.

Lemma key_eqb_refl (k : Dict.key) : Dict.key_eqb k k = true.
Proof. destruct k; cbn; [apply String.eqb_refl | reflexivity]. Qed.

Lemma key_dec (k k' : Dict.key) : {k = k'} + {k <> k'}.
Proof. destruct (key_eqb_spec k k'); [left | right]; assumption. Qed.

Section DictFacts.

Context {V : Type}.
Implicit Types (d : Dict.t (V := V)) (k : Dict.key) (v : V).

Lemma keys_set d k v :
  Dict.keys (Dict.set d k v)
  = if in_dec key_dec k (Dict.keys d)
    then Dict.keys d else Dict.keys d ++ [k].
Proof.
  induction d as [|[k' v'] d IH]; simpl.
  - reflexivity.
  - destruct (key_eqb_spec k' k) as [->|Hne]; simpl.
    + destruct (key_dec k k); [reflexivity|congruence].
    + rewrite IH.
      destruct (key_dec k' k); [congruence|].
      destruct (in_dec key_dec k (Dict.keys d)); reflexivity.
Qed.

Lemma NoDup_keys_set d k v :
  NoDup (Dict.keys d) -> NoDup (Dict.keys (Dict.set d k v)).
Proof.
  intros Hd. rewrite keys_set.
  destruct (in_dec key_dec k (Dict.keys d)) as [|Hout]; [assumption|].
  apply NoDup_app; [assumption| repeat constructor; simpl; tauto |].
  intros x Hx [<-|[]]. contradiction.
Qed.

Lemma In_keys_set d k v x :
  In x (Dict.keys (Dict.set d k v)) <-> x = k \/ In x (Dict.keys d).
Proof.
  rewrite keys_set.
  destruct (in_dec key_dec k (Dict.keys d)) as [Hin|Hout].
  - split; [tauto|]. intros [->|]; assumption.
  - rewrite in_app_iff. simpl. intuition congruence.
Qed.

Lemma comprehension_from (kvs : list (Dict.key * V)) d :
  NoDup (Dict.keys d) ->
  let d' := fold_left (fun d kv => Dict.set d (fst kv) (snd kv)) kvs d in
  NoDup (Dict.keys d')
  /\ forall x, In x (Dict.keys d') <-> In x (Dict.keys d) \/ In x (map fst kvs).
Proof.
  revert d. induction kvs as [|[k v] kvs IH]; intros d Hd; simpl.
  - split; [assumption|]. tauto.
  - destruct (IH (Dict.set d k v) (NoDup_keys_set d k v Hd)) as [Hnd Hin].
    split; [assumption|].
    intros x. rewrite Hin, In_keys_set. intuition.
Qed.

Lemma NoDup_keys_comprehension (kvs : list (Dict.key * V)) :
  NoDup (Dict.keys (Dict.comprehension kvs)).
Proof. apply (comprehension_from kvs Dict.empty). constructor. Qed.

Lemma In_keys_comprehension (kvs : list (Dict.key * V)) x :
  In x (Dict.keys (Dict.comprehension kvs)) <-> In x (map fst kvs).
Proof.
  destruct (comprehension_from kvs Dict.empty (NoDup_nil _)) as [_ H].
  unfold Dict.comprehension. rewrite H. simpl. tauto.
Qed.

Lemma In_get d k v :
  NoDup (Dict.keys d) -> In (k, v) d -> Dict.get d k = Some v.
Proof.
  induction d as [|[k' v'] d IH]; simpl; [tauto|].
  intros Hnd [[= -> ->]|Hin].
  - now rewrite key_eqb_refl.
  - inversion Hnd as [|? ? Hout Hnd']; subst.
    destruct (key_eqb_spec k' k) as [->|Hne]; [|auto].
    exfalso. apply Hout. apply (in_map fst) in Hin. exact Hin.
Qed.

Lemma get_In d k v : Dict.get d k = Some v -> In (k, v) d.
Proof.
  induction d as [|[k' v'] d IH]; simpl; [discriminate|].
  destruct (key_eqb_spec k' k) as [->|Hne].
  - intros [= ->]. now left.
  - intros H. right. auto.
Qed.

Lemma get_default_empty k (default : V) :
  Dict.get_default Dict.empty k default = default.
Proof. reflexivity. Qed.

End DictFacts.
End DictFacts.

(** Closed statements about the scenario are settled by evaluation. *)
Ltac by_evaluation := cbv zeta; repeat apply conj; vm_compute; reflexivity.

(** ** Lists *)

Lemma filter_map_comm {A B} (f : B -> bool) (g : A -> B) (l : list A) :
  filter f (map g l) = map g (filter (fun x => f (g x)) l).
Proof.
  induction l as [|x l IH]; simpl; [reflexivity|].
  destruct (f (g x)); simpl; now rewrite IH.
Qed.

Lemma map_eq_nil_inv {A B} (g : A -> B) (l : list A) :
  map g l = [] -> l = [].
Proof. destruct l; [reflexivity|discriminate]. Qed.

Lemma filter_none {A} (f : A -> bool) (l : list A) :
  (forall x, In x l -> f x = false) -> filter f l = [].
Proof.
  induction l as [|x l IH]; intros H; cbn [filter]; [reflexivity|].
  rewrite (H x (or_introl eq_refl)). apply IH. intros y Hy. apply H.
  now right.
Qed.

Lemma first_filter_none {A} (f : A -> bool) (l : list A) :
  first (filter f l) = None <-> forall x, In x l -> f x = false.
Proof.
  induction l as [|x l IH]; cbn [filter].
  - split; [intros _ y []|reflexivity].
  - destruct (f x) eqn:Hx; cbn [first].
    + split; [discriminate|]. intros H.
      rewrite (H x (or_introl eq_refl)) in Hx. discriminate.
    + rewrite IH. split.
      * intros H y [<-|Hy]; auto.
      * intros H y Hy. apply H. now right.
Qed.

Lemma first_filter_some {A} (f : A -> bool) (l : list A) x :
  first (filter f l) = Some x -> In x l /\ f x = true.
Proof.
  intros H. apply filter_In.
  destruct (filter f l); [discriminate|]. injection H as ->. now left.
Qed.

Lemma first_app_some {A} (l l' : list A) x :
  first l = Some x -> first (l ++ l') = Some x.
Proof. destruct l; [discriminate|]. intros H. exact H. Qed.

Lemma first_filter_last {A} (f : A -> bool) (l : list A) (x : A) :
  (forall y, In y l -> f y = false) -> f x = true ->
  first (filter f (l ++ [x])) = Some x.
Proof.
  intros Hnone Hx. rewrite filter_app, (filter_none f l Hnone).
  cbn [filter app]. now rewrite Hx.
Qed.

Lemma truthy_some (n : Z) : n <> 0 -> Py.truthy_int (Some n) = true.
Proof. intros H. simpl. now apply negb_true_iff, Z.eqb_neq. Qed.

(** ** Running a handler, one step at a time *)

Section Steps.

Context {A B : Type}.
Implicit Types (k : A -> Handler B) (c : Conn).

Lemma bind_ret (a : A) k c : bind (ret a) k c = k a c.
Proof. reflexivity. Qed.

Lemma bind_raise (e : Exception) k c :
  bind (raise e) k c = (c, inl e).
Proof. reflexivity. Qed.

Lemma bind_query (q : Database -> A) k c :
  bind (query q) k c = k (q (pending c)) c.
Proof. reflexivity. Qed.

Lemma bind_now utcnow (k : Z -> Handler B) c :
  bind (now utcnow) k c
  = k (utcnow (reads c))
      (mkConn (committed c) (pending c) (S (reads c)) (refused c)).
Proof. reflexivity. Qed.

Lemma bind_mutate fits f (k : unit -> Handler B) c :
  bind (mutate fits f) k c
  = k tt (mkConn (committed c) (f (pending c)) (reads c)
                 (refused c || negb fits)).
Proof. reflexivity. Qed.

Lemma bind_assoc {C} (m : Handler C) (h : C -> Handler A) k c :
  bind (bind m h) k c = bind m (fun x => bind (h x) k) c.
Proof. unfold bind. destruct (m c) as [c' [e|x]]; reflexivity. Qed.

Lemma bind_run {C} (m : Handler C) (h : C -> Handler B) c c' x :
  m c = (c', inr x) -> bind m h c = h x c'.
Proof. unfold bind. now intros ->. Qed.

Lemma bind_fail {C} (m : Handler C) (h : C -> Handler B) c c' e :
  m c = (c', inl e) -> bind m h c = (c', inl e).
Proof. unfold bind. now intros ->. Qed.

End Steps.

(** ** The reconciliation loop *)

Section Engine.

Variable utcnow : nat -> Z.
Variable session : FridgeSession.t.
Variable after_items : Dict.t (V := option Z).

Lemma depletions_cons k v (rest : Dict.t (V := option Z)) :
  depletions ((k, v) :: rest) after_items
  = match delta after_items (k, v), depletions rest after_items with
    | Some d, Some ds => Some (if d >? 0 then Consumed.mk k d :: ds else ds)
    | _, _ => None
    end.
Proof. reflexivity. Qed.

Lemma delta_some k v d :
  delta after_items (k, v) = Some d ->
  exists qb qa, v = Some qb
                /\ Dict.get_default after_items k (Some 0) = Some qa
                /\ d = qb - qa.
Proof.
  unfold delta. cbn [fst snd].
  destruct v as [qb|]; [|discriminate].
  destruct (Dict.get_default after_items k (Some 0)) as [qa|];
    [|discriminate].
  intros [= <-]. now exists qb, qa.
Qed.

Lemma delta_of k qb qa :
  Dict.get_default after_items k (Some 0) = Some qa ->
  delta after_items (k, Some qb) = Some (qb - qa).
Proof. unfold delta. cbn [fst snd]. now intros ->. Qed.

(** A loop that runs through met no missing quantity. *)
Lemma depletions_defined (before_items : Dict.t (V := option Z)) ds k v :
  depletions before_items after_items = Some ds ->
  In (k, v) before_items ->
  exists qb qa, v = Some qb
                /\ Dict.get_default after_items k (Some 0) = Some qa.
Proof.
  revert ds. induction before_items as [|[k' v'] rest IH]; intros ds Hds Hin;
    [destruct Hin|].
  rewrite depletions_cons in Hds.
  destruct (delta after_items (k', v')) as [d|] eqn:Hd; [|discriminate].
  destruct (depletions rest after_items) as [ds'|]; [|discriminate].
  destruct Hin as [[= -> ->]|Hin]; [|now apply (IH ds')].
  apply delta_some in Hd. destruct Hd as [qb [qa [-> [Ha _]]]].
  now exists qb, qa.
Qed.

Lemma depletions_label (before_items : Dict.t (V := option Z)) ds c :
  depletions before_items after_items = Some ds ->
  In c ds ->
  exists qb qa,
    In (Consumed.label c, Some qb) before_items
    /\ Dict.get_default after_items (Consumed.label c) (Some 0) = Some qa
    /\ Consumed.quantity c = qb - qa
    /\ Consumed.quantity c > 0.
Proof.
  revert ds. induction before_items as [|[k v] rest IH]; intros ds Hds Hin.
  - injection Hds as <-. destruct Hin.
  - rewrite depletions_cons in Hds.
    destruct (delta after_items (k, v)) as [d|] eqn:Hd; [|discriminate].
    destruct (depletions rest after_items) as [ds'|]; [|discriminate].
    injection Hds as <-.
    assert (Hrest : In c ds' ->
                    exists qb qa,
                      In (Consumed.label c, Some qb) ((k, v) :: rest)
                      /\ Dict.get_default after_items (Consumed.label c)
                                          (Some 0) = Some qa
                      /\ Consumed.quantity c = qb - qa
                      /\ Consumed.quantity c > 0).
    { intros H. destruct (IH ds' eq_refl H) as [qb [qa [H1 H2]]].
      exists qb, qa. split; [now right | exact H2]. }
    destruct (d >? 0) eqn:Hpos; [|now apply Hrest].
    destruct Hin as [<-|Hin]; [|now apply Hrest].
    apply delta_some in Hd. destruct Hd as [qb [qa [-> [Ha ->]]]].
    exists qb, qa. cbn [Consumed.label Consumed.quantity].
    split; [now left|]. split; [exact Ha|]. split; [reflexivity|].
    apply Z.gtb_lt in Hpos. lia.
Qed.

Lemma has_label_mk l k q :
  has_label l (Consumed.mk k q) = Dict.key_eqb k l.
Proof. reflexivity. Qed.

Lemma key_eqb_neq (k l : Dict.key) : k <> l -> Dict.key_eqb k l = false.
Proof. intros H. now destruct (DictFacts.key_eqb_spec k l). Qed.

Lemma depletions_off (before_items : Dict.t (V := option Z)) ds l :
  depletions before_items after_items = Some ds ->
  ~ In l (Dict.keys before_items) ->
  filter (has_label l) ds = [].
Proof.
  revert ds. induction before_items as [|[k v] rest IH]; intros ds Hds Hout.
  - now injection Hds as <-.
  - rewrite depletions_cons in Hds.
    destruct (delta after_items (k, v)) as [d|]; [|discriminate].
    destruct (depletions rest after_items) as [ds'|]; [|discriminate].
    injection Hds as <-. simpl in Hout.
    assert (Hkl : Dict.key_eqb k l = false) by (apply key_eqb_neq; tauto).
    assert (Hds' : filter (has_label l) ds' = [])
      by (apply IH; [reflexivity | tauto]).
    destruct (d >? 0); [|exact Hds'].
    cbn [filter]. rewrite has_label_mk, Hkl. exact Hds'.
Qed.

Lemma depletions_on (before_items : Dict.t (V := option Z)) ds l qb qa :
  NoDup (Dict.keys before_items) ->
  depletions before_items after_items = Some ds ->
  Dict.get before_items l = Some (Some qb) ->
  Dict.get_default after_items l (Some 0) = Some qa ->
  filter (has_label l) ds
  = if qb - qa >? 0 then [Consumed.mk l (qb - qa)] else [].
Proof.
  revert ds. induction before_items as [|[k v] rest IH];
    intros ds Hnd Hds Hget Ha; [discriminate|].
  inversion Hnd as [|? ? Hout Hnd']; subst.
  rewrite depletions_cons in Hds.
  destruct (delta after_items (k, v)) as [d|] eqn:Hd; [|discriminate].
  destruct (depletions rest after_items) as [ds'|] eqn:Hrest; [|discriminate].
  injection Hds as <-. simpl in Hget.
  destruct (DictFacts.key_eqb_spec k l) as [->|Hne].
  - injection Hget as ->. rewrite (delta_of _ _ _ Ha) in Hd.
    injection Hd as <-.
    assert (Hds' : filter (has_label l) ds' = [])
      by (now apply (depletions_off rest)).
    destruct (qb - qa >? 0); [|exact Hds'].
    cbn [filter]. rewrite has_label_mk, DictFacts.key_eqb_refl.
    now rewrite Hds'.
  - assert (Hkl : Dict.key_eqb k l = false) by (now apply key_eqb_neq).
    specialize (IH ds' Hnd' eq_refl Hget Ha).
    destruct (d >? 0); [|exact IH].
    cbn [filter]. rewrite has_label_mk, Hkl. exact IH.
Qed.

Lemma depletions_NoDup (before_items : Dict.t (V := option Z)) ds :
  NoDup (Dict.keys before_items) ->
  depletions before_items after_items = Some ds ->
  NoDup (map Consumed.label ds).
Proof.
  revert ds. induction before_items as [|[k v] rest IH]; intros ds Hnd Hds.
  - injection Hds as <-. constructor.
  - inversion Hnd as [|? ? Hout Hnd']; subst.
    rewrite depletions_cons in Hds.
    destruct (delta after_items (k, v)) as [d|]; [|discriminate].
    destruct (depletions rest after_items) as [ds'|] eqn:Hrest;
      [|discriminate].
    injection Hds as <-.
    destruct (d >? 0); [|now apply IH].
    simpl. constructor; [|now apply IH].
    rewrite in_map_iff. intros [c [Hc Hin]].
    destruct (depletions_label rest ds' c Hrest Hin) as [qb [_ [Hin' _]]].
    apply Hout. apply (in_map fst) in Hin'. simpl in Hin'.
    now rewrite <- Hc.
Qed.

(** One run of the loop that meets no missing quantity: the ledger rows it
    adds, the list it returns and whether the flush will take the rows. *)
Lemma reconcile_run (items : list (Dict.key * option Z)) :
  forall (ds consumed : list Consumed.t) (c : Conn),
  depletions items after_items = Some ds ->
  exists evs,
    reconcile utcnow session after_items items consumed c
    = (mkConn (committed c) (append_events evs (pending c))
              (reads c + length evs)
              (refused c
               || negb (forallb (fun d => Sql.fits_Integer
                                            (Consumed.quantity d)) ds)),
       inr (consumed ++ ds))
    /\ map event_entry evs = ds
    /\ Forall (fun ev =>
                 ConsumptionEvent.session_id ev = FridgeSession.id session
                 /\ ConsumptionEvent.employee_id ev
                    = FridgeSession.employee_id session) evs.
Proof.
  induction items as [|[label qty_before] rest IH]; intros ds consumed c Hds.
  - injection Hds as <-. exists []. simpl. unfold ret, append_events.
    rewrite app_nil_r, Nat.add_0_r, orb_false_r.
    destruct c as [cm [e s v ev] n r].
    simpl. rewrite app_nil_r. auto.
  - rewrite depletions_cons in Hds.
    destruct (delta after_items (label, qty_before)) as [d|] eqn:Hd;
      [|discriminate].
    destruct (depletions rest after_items) as [ds'|] eqn:Hrest;
      [|discriminate].
    injection Hds as <-.
    apply delta_some in Hd. destruct Hd as [qb [qa [-> [Ha ->]]]].
    cbn [reconcile]. rewrite Ha. cbv zeta.
    destruct (qb - qa >? 0).
    + rewrite bind_now.
      unfold bind at 1. unfold add_event at 1. cbv beta iota zeta.
      match goal with
      | |- context [reconcile _ _ _ _ ?acc ?c1] =>
          destruct (IH ds' acc c1 eq_refl) as [evs [Hrun [Hent Hall]]]
      end.
      eexists (_ :: evs). rewrite Hrun.
      cbn [committed pending reads refused].
      split; [|split].
      * f_equal.
        -- unfold append_events, insert_event. simpl.
           rewrite <- app_assoc. simpl.
           f_equal; [f_equal; lia|].
           unfold ConsumptionEvent.fits. simpl.
           destruct (refused c), (Sql.fits_Integer (qb - qa)),
             (forallb _ ds'); reflexivity.
        -- now rewrite <- app_assoc.
      * simpl. now rewrite Hent.
      * constructor; [split; reflexivity | exact Hall].
    + apply IH. reflexivity.
Qed.

(** A run that meets a missing quantity ends in [TypeError]. *)
Lemma reconcile_stuck (items : list (Dict.key * option Z)) :
  forall (consumed : list Consumed.t) (c : Conn),
  depletions items after_items = None ->
  exists c',
    reconcile utcnow session after_items items consumed c
    = (c', inl TypeError)
    /\ committed c' = committed c
    /\ (reads c <= reads c')%nat.
Proof.
  induction items as [|[label qty_before] rest IH]; intros consumed c Hds;
    [discriminate|].
  rewrite depletions_cons in Hds. cbn [reconcile].
  unfold delta in Hds. cbn [fst snd] in Hds.
  destruct qty_before as [qb|];
    [|exists c; unfold raise; auto].
  destruct (Dict.get_default after_items label (Some 0)) as [qa|];
    [|exists c; unfold raise; auto].
  destruct (depletions rest after_items) as [ds'|] eqn:Hrest; [discriminate|].
  cbv zeta. destruct (qb - qa >? 0).
  - rewrite bind_now.
    unfold bind at 1. unfold add_event at 1. cbv beta iota zeta.
    match goal with
    | |- context [reconcile _ _ _ _ ?acc ?c1] =>
        destruct (IH acc c1 eq_refl) as [c' [Hrun [Hcm Hrd]]]
    end.
    exists c'. rewrite Hrun. cbn [committed reads] in Hcm, Hrd.
    split; [reflexivity|]. split; [exact Hcm | lia].
  - apply IH. reflexivity.
Qed.

End Engine.

(** ** What one request does *)

Section Runs.

Variable utcnow : nat -> Z.

Lemma snapshot_keys_NoDup cid db : NoDup (Dict.keys (snapshot cid db)).
Proof. apply DictFacts.NoDup_keys_comprehension. Qed.

Lemma snapshot_keys cid db l :
  In l (Dict.keys (snapshot cid db))
  <-> In l (map VisionItem.label (items_of_capture cid db)).
Proof.
  unfold snapshot, label_quantities.
  rewrite DictFacts.In_keys_comprehension, map_map. reflexivity.
Qed.

Lemma sessions_by_id_first sid db s :
  first (sessions_by_id sid db) = Some s ->
  FridgeSession.id s = sid /\ In s (fridge_sessions db).
Proof.
  unfold sessions_by_id. intros H.
  assert (Hin : In s (filter (fun r => FridgeSession.id r =? sid)
                             (fridge_sessions db))).
  { destruct (filter _ _); [discriminate|]. injection H as ->. now left. }
  apply filter_In in Hin. destruct Hin as [Hin Heq].
  split; [now apply Z.eqb_eq | exact Hin].
Qed.

Lemma close_unknown sv p :
  first (sessions_by_id (SessionCloseRequest.session_id p) (store sv)) = None ->
  endpoint (session_close utcnow p) sv
  = (sv, inl (Raised (HTTPError 404 "Sessão não encontrada"))).
Proof.
  intros H. unfold endpoint, session_close.
  rewrite bind_query. cbn [pending].
  rewrite H. unfold raise. destruct sv; reflexivity.
Qed.

(** The close of a session that exists, up to the loop. *)
Lemma close_unfold sv p s :
  first (sessions_by_id (SessionCloseRequest.session_id p) (store sv)) = Some s ->
  let row := FridgeSession.close (utcnow (clock sv))
               (SessionCloseRequest.capture_before_id p)
               (SessionCloseRequest.capture_after_id p) s in
  endpoint (session_close utcnow p) sv
  = endpoint
      (fun _ =>
         bind (if both_captures p
               then reconcile utcnow row
                      (snapshot (SessionCloseRequest.capture_after_id p)
                                (store sv))
                      (Dict.items
                         (snapshot (SessionCloseRequest.capture_before_id p)
                                   (store sv)))
                      []
               else ret [])
              (fun consumed =>
                 bind commit
                      (fun _ => ret (SessionCloseResponse.mk
                                       true (FridgeSession.id s) consumed)))
              (mkConn (store sv) (update_session row (store sv))
                      (S (clock sv)) (negb (FridgeSession.fits row))))
      sv.
Proof.
  intros Hs row. unfold endpoint, session_close.
  rewrite bind_query. cbn [pending]. rewrite Hs.
  rewrite bind_now, bind_mutate. cbn [committed pending reads refused orb].
  fold (both_captures p). fold row.
  destruct (both_captures p); [|reflexivity].
  rewrite bind_assoc, bind_query, bind_assoc, bind_query. reflexivity.
Qed.

Lemma fits_close at_ before after s :
  FridgeSession.fits (FridgeSession.close at_ before after s)
  = Sql.fits_nullable before && Sql.fits_nullable after.
Proof. reflexivity. Qed.

(** The close of a session that exists: either it is carried through, and
    the tables are the old ones with the row rewritten and the ledger
    extended, or it ends in an uncaught error and the tables are the old
    ones. *)
Lemma close_run sv p s :
  first (sessions_by_id (SessionCloseRequest.session_id p) (store sv)) = Some s ->
  (commits (store sv) p = true
   /\ exists evs,
        endpoint (session_close utcnow p) sv
        = (mkServer
             (append_events evs
                (update_session
                   (FridgeSession.close (utcnow (clock sv))
                      (SessionCloseRequest.capture_before_id p)
                      (SessionCloseRequest.capture_after_id p) s)
                   (store sv)))
             (S (clock sv) + length evs),
           inr (SessionCloseResponse.mk true (FridgeSession.id s)
                  (map event_entry evs)))
        /\ Some (map event_entry evs)
           = (if both_captures p
              then depletions
                     (snapshot (SessionCloseRequest.capture_before_id p)
                               (store sv))
                     (snapshot (SessionCloseRequest.capture_after_id p)
                               (store sv))
              else Some [])
        /\ Forall (fun ev =>
                     ConsumptionEvent.session_id ev = FridgeSession.id s
                     /\ ConsumptionEvent.employee_id ev
                        = FridgeSession.employee_id s) evs)
  \/ (commits (store sv) p = false
      /\ exists n e,
           endpoint (session_close utcnow p) sv
           = (mkServer (store sv) n, inl e)
           /\ (clock sv < n)%nat
           /\ (e = TypeError \/ e = DataError)).
Proof.
  intros Hs. rewrite (close_unfold sv p s Hs). cbv zeta.
  unfold commits. rewrite <- fits_close with (at_ := utcnow (clock sv)) (s := s).
  set (row := FridgeSession.close _ _ _ s).
  unfold endpoint.
  destruct (both_captures p).
  - destruct (depletions _ _) as [ds|] eqn:Hd.
    + destruct (reconcile_run utcnow row _ _ ds []
                  (mkConn (store sv) (update_session row (store sv))
                          (S (clock sv)) (negb (FridgeSession.fits row))) Hd)
        as [evs [Hrun [Hent Hall]]].
      rewrite (bind_run _ _ _ _ _ Hrun).
      unfold bind, commit, ret. cbn [committed pending reads refused app].
      destruct (FridgeSession.fits row); cbn [negb orb andb].
      * destruct (forallb _ ds); cbn [negb].
        -- left. split; [reflexivity|]. exists evs.
           rewrite Hent. cbn [committed reads].
           split; [reflexivity|]. split; [reflexivity|exact Hall].
        -- right. split; [reflexivity|].
           exists (S (clock sv) + length evs)%nat, DataError.
           cbn [committed reads]. split; [reflexivity|].
           split; [lia|now right].
      * right. split; [reflexivity|].
        exists (S (clock sv) + length evs)%nat, DataError.
        cbn [committed reads]. split; [reflexivity|].
        split; [lia|now right].
    + destruct (reconcile_stuck utcnow row _ _ []
                  (mkConn (store sv) (update_session row (store sv))
                          (S (clock sv)) (negb (FridgeSession.fits row))) Hd)
        as [c' [Hrun [Hcm Hrd]]].
      rewrite (bind_fail _ _ _ _ _ Hrun).
      right. split; [apply andb_false_r|].
      exists (reads c'), TypeError. cbn [committed reads] in Hcm, Hrd.
      rewrite Hcm. split; [reflexivity|]. split; [lia|now left].
  - rewrite bind_ret. unfold bind, commit, ret.
    cbn [committed pending reads refused].
    destruct (FridgeSession.fits row); cbn [negb andb].
    + left. split; [reflexivity|]. exists [].
      cbn [committed reads map length].
      unfold append_events. cbn [consumption_events employees fridge_sessions
                                 vision_items update_session].
      rewrite app_nil_r, Nat.add_0_r.
      split; [reflexivity|]. split; [reflexivity|constructor].
    + right. split; [reflexivity|].
      exists (S (clock sv)), DataError.
      cbn [committed reads]. split; [reflexivity|].
      split; [lia|now right].
Qed.

(** A close that answers was carried through. *)
Lemma close_returns sv p s :
  first (sessions_by_id (SessionCloseRequest.session_id p) (store sv)) = Some s ->
  forall resp,
    snd (endpoint (session_close utcnow p) sv) = inr resp ->
    commits (store sv) p = true.
Proof.
  intros Hs resp Hr.
  destruct (close_run sv p s Hs) as [[Hc _]|[_ [n [e [Hrun _]]]]];
    [exact Hc|].
  rewrite Hrun in Hr. discriminate.
Qed.

Lemma start_unknown sv p :
  first (employees_by_code (SessionStartRequest.employee_code p) (store sv))
  = None ->
  endpoint (session_start utcnow p) sv
  = (sv, inl (Raised (HTTPError 404 "Colaborador não encontrado"))).
Proof.
  intros H. unfold endpoint, session_start.
  rewrite bind_query. cbn [pending].
  rewrite H. unfold raise. destruct sv; reflexivity.
Qed.

Lemma start_run sv p emp :
  first (employees_by_code (SessionStartRequest.employee_code p) (store sv))
  = Some emp ->
  endpoint (session_start utcnow p) sv
  = (mkServer (insert_session (opened_row utcnow sv p emp) (store sv))
              (S (clock sv)),
     inr (SessionStartResponse.mk true
            (FridgeSession.id (opened_row utcnow sv p emp))
            (EmployeeOut.from_orm emp))).
Proof.
  intros H. unfold endpoint, session_start.
  rewrite bind_query. cbn [pending].
  rewrite H. reflexivity.
Qed.

Lemma create_conflict sv p e :
  first (employees_by_code (EmployeeCreate.employee_code p) (store sv))
  = Some e ->
  fst (endpoint (create_employee utcnow p) sv) = sv.
Proof.
  intros H. unfold endpoint, create_employee.
  rewrite bind_query. cbn [pending].
  rewrite H. unfold raise. destruct sv; reflexivity.
Qed.

Lemma create_run sv p :
  first (employees_by_code (EmployeeCreate.employee_code p) (store sv))
  = None ->
  exists e,
    fst (endpoint (create_employee utcnow p) sv)
    = mkServer (insert_employee e (store sv)) (S (S (clock sv)))
    /\ Employee.employee_code e = EmployeeCreate.employee_code p
    /\ Employee.id e = next_id (map Employee.id (employees (store sv))).
Proof.
  intros H. unfold endpoint, create_employee.
  rewrite bind_query. cbn [pending].
  rewrite H. eexists. split; [reflexivity|]. split; reflexivity.
Qed.

Lemma list_run sv code :
  endpoint (sessions_list code) sv
  = (sv, inr (map list_item
                (order_by_opened_at_desc
                   (if Py.truthy_str code
                    then filter (code_is code) (join_employees (store sv))
                    else join_employees (store sv))))).
Proof. destruct sv. reflexivity. Qed.

End Runs.

(** ** Ledger rows and consumed entries *)

Lemma about_label_entries l evs :
  map event_entry (filter (about_label l) evs)
  = filter (has_label l) (map event_entry evs).
Proof. now rewrite filter_map_comm. Qed.

(** The case of [close_run] in which the close is carried through. *)
Lemma close_ok (utcnow : nat -> Z) sv p s :
  first (sessions_by_id (SessionCloseRequest.session_id p) (store sv)) = Some s ->
  commits (store sv) p = true ->
  exists evs,
    endpoint (session_close utcnow p) sv
    = (mkServer
         (append_events evs
            (update_session
               (FridgeSession.close (utcnow (clock sv))
                  (SessionCloseRequest.capture_before_id p)
                  (SessionCloseRequest.capture_after_id p) s)
               (store sv)))
         (S (clock sv) + length evs),
       inr (SessionCloseResponse.mk true (FridgeSession.id s)
              (map event_entry evs)))
    /\ Some (map event_entry evs)
       = (if both_captures p
          then depletions
                 (snapshot (SessionCloseRequest.capture_before_id p)
                           (store sv))
                 (snapshot (SessionCloseRequest.capture_after_id p)
                           (store sv))
          else Some [])
    /\ Forall (fun ev =>
                 ConsumptionEvent.session_id ev = FridgeSession.id s
                 /\ ConsumptionEvent.employee_id ev
                    = FridgeSession.employee_id s) evs.
Proof.
  intros Hs Hc.
  destruct (close_run utcnow sv p s Hs) as [[_ H]|[Hc' _]];
    [exact H | congruence].
Qed.

(** The case of [close_run] in which the close ends in an uncaught error. *)
Lemma close_ko (utcnow : nat -> Z) sv p s :
  first (sessions_by_id (SessionCloseRequest.session_id p) (store sv)) = Some s ->
  commits (store sv) p = false ->
  exists n e,
    endpoint (session_close utcnow p) sv = (mkServer (store sv) n, inl e)
    /\ (clock sv < n)%nat
    /\ (e = TypeError \/ e = DataError).
Proof.
  intros Hs Hc.
  destruct (close_run utcnow sv p s Hs) as [[Hc' _]|[_ H]];
    [congruence | exact H].
Qed.

Lemma guard_open p b a :
  SessionCloseRequest.capture_before_id p = Some b -> b <> 0 ->
  SessionCloseRequest.capture_after_id p = Some a -> a <> 0 ->
  both_captures p = true.
Proof.
  intros Hb Hb0 Ha Ha0. unfold both_captures. rewrite Hb, Ha.
  now rewrite (truthy_some b Hb0), (truthy_some a Ha0).
Qed.

Lemma guard_closed p :
  SessionCloseRequest.capture_before_id p = None
  \/ SessionCloseRequest.capture_before_id p = Some 0
  \/ SessionCloseRequest.capture_after_id p = None
  \/ SessionCloseRequest.capture_after_id p = Some 0 ->
  both_captures p = false.
Proof.
  unfold both_captures.
  intros [H|[H|[H|H]]]; rewrite H; cbn; auto using andb_false_r.
Qed.

(** ** Conservation *)

(** C1 (as amended).  For every close call on an existing session whose two
    capture ids are present and non-zero and which the database carries
    through ([commits]: the capture ids fit the Integer column, the loop
    meets no missing quantity, every difference it records fits the Integer
    column), with B and A the before- and after-dictionaries: the call
    answers; every label of B has a quantity, and so has [A.get(l, 0)]; a
    label of B with [B[l] > A.get(l, 0)] gets exactly one entry in
    [consumed] and exactly one new ledger row, both with quantity
    [B[l] - A.get(l, 0)]; a label of B with [A.get(l, 0) >= B[l]] gets
    none. *)
Theorem close_conservation (utcnow : nat -> Z) (sv : Server)
        (p : SessionCloseRequest.t) (s : FridgeSession.t) (b a : Z) :
  first (sessions_by_id (SessionCloseRequest.session_id p) (store sv))
  = Some s ->
  SessionCloseRequest.capture_before_id p = Some b -> b <> 0 ->
  SessionCloseRequest.capture_after_id p = Some a -> a <> 0 ->
  commits (store sv) p = true ->
  exists sv' resp evs,
    endpoint (session_close utcnow p) sv = (sv', inr resp)
    /\ consumption_events (store sv')
       = consumption_events (store sv) ++ evs
    /\ (forall l v,
          Dict.get (snapshot (Some b) (store sv)) l = Some v ->
          exists qb qa,
            v = Some qb
            /\ Dict.get_default (snapshot (Some a) (store sv)) l (Some 0)
               = Some qa)
    /\ forall l qb qa,
         Dict.get (snapshot (Some b) (store sv)) l = Some (Some qb) ->
         Dict.get_default (snapshot (Some a) (store sv)) l (Some 0)
         = Some qa ->
         (qb > qa ->
          filter (has_label l) (SessionCloseResponse.consumed resp)
          = [Consumed.mk l (qb - qa)]
          /\ map event_entry (filter (about_label l) evs)
             = [Consumed.mk l (qb - qa)])
         /\ (qa >= qb ->
             filter (has_label l) (SessionCloseResponse.consumed resp) = []
             /\ filter (about_label l) evs = []).
Proof.
  intros Hs Hb Hb0 Ha Ha0 Hc.
  destruct (close_ok utcnow sv p s Hs Hc) as [evs [Hrun [Hent _]]].
  rewrite (guard_open p b a Hb Hb0 Ha Ha0), Hb, Ha in Hent.
  symmetry in Hent.
  eexists _, _, evs. split; [exact Hrun|]. split; [reflexivity|].
  split.
  - intros l v Hget.
    exact (depletions_defined _ _ _ l v Hent (DictFacts.get_In _ _ _ Hget)).
  - intros l qb qa Hget Hqa. cbn [SessionCloseResponse.consumed].
    rewrite about_label_entries.
    rewrite (depletions_on _ _ _ l qb qa (snapshot_keys_NoDup _ _)
                           Hent Hget Hqa).
    split; intros Hcmp.
    + assert (Hpos : (qb - qa >? 0) = true) by (apply Z.gtb_lt; lia).
      rewrite Hpos. auto.
    + assert (Hneg : (qb - qa >? 0) = false)
        by (rewrite Z.gtb_ltb; apply Z.ltb_ge; lia).
      rewrite Hneg. split; [reflexivity|].
      apply (map_eq_nil_inv event_entry). rewrite about_label_entries.
      rewrite (depletions_on _ _ _ l qb qa (snapshot_keys_NoDup _ _)
                             Hent Hget Hqa).
      now rewrite Hneg.
Qed.

(** C1, counterexample.  In the scenario, on the open session 1.  A close
    with before-capture 1 and after-capture 0: both ids are present, milk is
    a before-label with B[milk] = 5 > 0 = A.get(milk, 0), and yet nothing is
    consumed and no ledger row is written.  A close with before-capture 5
    and after-capture 6: milk is a before-label with
    B[milk] = 2147483647 > -2 = A.get(milk, 0), the difference does not fit
    the Integer column, the call ends in an error and no ledger row is
    written. *)
Lemma close_conservation_fails :
  let p := SessionCloseRequest.mk 1 (Some 1) (Some 0) in
  let q := SessionCloseRequest.mk 1 (Some 5) (Some 6) in
  first (sessions_by_id 1 (store fixture)) = Some fixture_session
  /\ Dict.get (snapshot (Some 1) (store fixture)) (Some "milk")
     = Some (Some 5)
  /\ Dict.get_default (snapshot (Some 0) (store fixture)) (Some "milk")
                      (Some 0) = Some 0
  /\ snd (endpoint (session_close fixture_clock p) fixture)
     = inr (SessionCloseResponse.mk true 1 [])
  /\ consumption_events
       (store (fst (endpoint (session_close fixture_clock p) fixture)))
     = consumption_events (store fixture)
  /\ Dict.get (snapshot (Some 5) (store fixture)) (Some "milk")
     = Some (Some 2147483647)
  /\ Dict.get_default (snapshot (Some 6) (store fixture)) (Some "milk")
                      (Some 0) = Some (-2)
  /\ snd (endpoint (session_close fixture_clock q) fixture) = inl DataError
  /\ consumption_events
       (store (fst (endpoint (session_close fixture_clock q) fixture)))
     = consumption_events (store fixture).
Proof. by_evaluation. Qed.

(** C1, instance: the scenario closed with captures 1 and 2 reports milk 2
    and soda 2. *)
Lemma close_conservation_witness :
  let p := SessionCloseRequest.mk 1 (Some 1) (Some 2) in
  first (sessions_by_id 1 (store fixture)) = Some fixture_session
  /\ commits (store fixture) p = true
  /\ exists resp,
       snd (endpoint (session_close fixture_clock p) fixture) = inr resp
       /\ filter (has_label (Some "milk")) (SessionCloseResponse.consumed resp)
          = [Consumed.mk (Some "milk") 2]
       /\ filter (has_label (Some "soda")) (SessionCloseResponse.consumed resp)
          = [Consumed.mk (Some "soda") 2].
Proof.
  split; [reflexivity|]. split; [vm_compute; reflexivity|].
  destruct (close_conservation fixture_clock fixture
              (SessionCloseRequest.mk 1 (Some 1) (Some 2)) fixture_session
              1 2 eq_refl eq_refl ltac:(discriminate) eq_refl
              ltac:(discriminate) ltac:(vm_compute; reflexivity))
    as (sv' & resp & evs & Hrun & _ & _ & Hall).
  exists resp. split; [now rewrite Hrun|]. split.
  - exact (proj1 (proj1 (Hall (Some "milk") 5 3 eq_refl eq_refl) eq_refl)).
  - exact (proj1 (proj1 (Hall (Some "soda") 2 0 eq_refl eq_refl) eq_refl)).
Defined.

(** ** Captures without rows *)

Lemma depletions_empty_after (before_items : Dict.t (V := option Z)) ds :
  depletions before_items Dict.empty = Some ds ->
  map as_item ds = filter positive before_items.
Proof.
  revert ds. induction before_items as [|[k v] rest IH]; intros ds Hds.
  - now injection Hds as <-.
  - rewrite depletions_cons in Hds.
    destruct (delta Dict.empty (k, v)) as [d|] eqn:Hd; [|discriminate].
    destruct (depletions rest Dict.empty) as [ds'|]; [|discriminate].
    injection Hds as <-.
    apply delta_some in Hd. destruct Hd as [qb [qa [-> [Hqa ->]]]].
    rewrite DictFacts.get_default_empty in Hqa. injection Hqa as <-.
    rewrite Z.sub_0_r. cbn [filter positive snd].
    destruct (qb >? 0); cbn [map as_item Consumed.label Consumed.quantity];
      now rewrite (IH ds' eq_refl).
Qed.

Lemma snapshot_no_rows cid db :
  items_of_capture cid db = [] -> snapshot cid db = Dict.empty.
Proof. unfold snapshot. now intros ->. Qed.

Lemma commits_no_rows db p :
  items_of_capture (SessionCloseRequest.capture_before_id p) db = [] ->
  commits db p
  = Sql.fits_nullable (SessionCloseRequest.capture_before_id p)
    && Sql.fits_nullable (SessionCloseRequest.capture_after_id p).
Proof.
  intros Hnone. unfold commits. rewrite (snapshot_no_rows _ _ Hnone).
  destruct (both_captures p); cbn; apply andb_true_r.
Qed.

(** C2 (as amended).  On a close call of an existing session a capture id
    that resolves to no snapshot rows counts as an empty mapping.  If the
    before-capture has no rows, no ledger row is written, the call answers
    exactly when the two capture ids of the request fit the Integer column,
    and then nothing is consumed.  If the call is one the database carries
    through ([commits]), it answers with the entries of the ledger rows it
    writes; and if moreover both capture ids are present and non-zero and
    the after-capture has no rows, every before-label has a quantity and
    the consumed list is the before-dictionary restricted to its labels of
    positive quantity, each with exactly its before quantity. *)
Theorem close_missing_capture (utcnow : nat -> Z) (sv : Server)
        (p : SessionCloseRequest.t) (s : FridgeSession.t) :
  first (sessions_by_id (SessionCloseRequest.session_id p) (store sv))
  = Some s ->
  (items_of_capture (SessionCloseRequest.capture_before_id p) (store sv)
   = [] ->
   consumption_events (store (fst (endpoint (session_close utcnow p) sv)))
   = consumption_events (store sv)
   /\ ((exists resp,
          snd (endpoint (session_close utcnow p) sv) = inr resp)
       <-> Sql.fits_nullable (SessionCloseRequest.capture_before_id p)
           && Sql.fits_nullable (SessionCloseRequest.capture_after_id p)
           = true)
   /\ forall resp,
        snd (endpoint (session_close utcnow p) sv) = inr resp ->
        SessionCloseResponse.consumed resp = [])
  /\ (commits (store sv) p = true ->
      exists sv' resp evs,
        endpoint (session_close utcnow p) sv = (sv', inr resp)
        /\ consumption_events (store sv')
           = consumption_events (store sv) ++ evs
        /\ map event_entry evs = SessionCloseResponse.consumed resp
        /\ forall b a,
             SessionCloseRequest.capture_before_id p = Some b -> b <> 0 ->
             SessionCloseRequest.capture_after_id p = Some a -> a <> 0 ->
             items_of_capture (Some a) (store sv) = [] ->
             Forall (fun kv => snd kv <> None)
                    (Dict.items (snapshot (Some b) (store sv)))
             /\ map as_item (SessionCloseResponse.consumed resp)
                = filter positive
                         (Dict.items (snapshot (Some b) (store sv)))).
Proof.
  intros Hs. split.
  - intros Hnone. rewrite <- (commits_no_rows _ _ Hnone).
    destruct (close_run utcnow sv p s Hs)
      as [[Hc [evs [Hrun [Hent _]]]]|[Hc [n [e [Hrun _]]]]];
      rewrite Hrun, Hc; cbn [fst snd store].
    + rewrite (snapshot_no_rows _ _ Hnone) in Hent.
      assert (Hnil : map event_entry evs = []).
      { destruct (both_captures p); cbn in Hent; congruence. }
      rewrite (map_eq_nil_inv _ _ Hnil). cbn. rewrite app_nil_r.
      split; [reflexivity|]. split; [split; eauto|].
      intros resp [= <-]. reflexivity.
    + split; [reflexivity|]. split.
      * split; [intros [resp H]|]; discriminate.
      * discriminate.
  - intros Hc.
    destruct (close_ok utcnow sv p s Hs Hc) as [evs [Hrun [Hent _]]].
    eexists _, _, evs. split; [exact Hrun|]. split; [reflexivity|].
    cbn [SessionCloseResponse.consumed]. split; [reflexivity|].
    intros b a Hb Hb0 Ha Ha0 Hnone.
    rewrite (guard_open p b a Hb Hb0 Ha Ha0), Hb, Ha in Hent.
    rewrite (snapshot_no_rows _ _ Hnone) in Hent. symmetry in Hent.
    split.
    + apply Forall_forall. intros [k v] Hin.
      destruct (depletions_defined _ _ _ k v Hent Hin) as [qb [_ [-> _]]].
      discriminate.
    + now apply depletions_empty_after.
Qed.

(** C2, counterexample.  In the scenario, with an after-capture that has
    no rows: closing with before-capture 3 reports milk 5 only, although
    soda and beer are before-labels (quantities 0 and -2); closing with
    before-capture 1 and the supplied after-capture 0 reports nothing,
    although milk and soda are before-labels; and closing with
    before-capture 1 and the after-capture 9223372036854775808 fails. *)
Lemma close_missing_capture_fails :
  let p := SessionCloseRequest.mk 1 (Some 3) (Some 4) in
  let q := SessionCloseRequest.mk 1 (Some 1) (Some 0) in
  let r := SessionCloseRequest.mk 1 (Some 1) (Some huge) in
  items_of_capture (Some 4) (store fixture) = []
  /\ Dict.items (snapshot (Some 3) (store fixture))
     = [(Some "milk", Some 5); (Some "soda", Some 0);
        (Some "beer", Some (-2))]
  /\ snd (endpoint (session_close fixture_clock p) fixture)
     = inr (SessionCloseResponse.mk true 1 [Consumed.mk (Some "milk") 5])
  /\ items_of_capture (Some 0) (store fixture) = []
  /\ Dict.items (snapshot (Some 1) (store fixture))
     = [(Some "milk", Some 5); (Some "soda", Some 2)]
  /\ snd (endpoint (session_close fixture_clock q) fixture)
     = inr (SessionCloseResponse.mk true 1 [])
  /\ items_of_capture (Some huge) (store fixture) = []
  /\ snd (endpoint (session_close fixture_clock r) fixture) = inl DataError.
Proof. by_evaluation. Qed.

(** C2, instance: the scenario closed with before-capture 1 and the empty
    after-capture 4 reports the before quantities, milk 5 and soda 2; closed
    with the empty before-capture 4 it reports nothing. *)
Lemma close_missing_capture_witness :
  first (sessions_by_id 1 (store fixture)) = Some fixture_session
  /\ (exists resp,
        snd (endpoint (session_close fixture_clock
                         (SessionCloseRequest.mk 1 (Some 1) (Some 4)))
                      fixture) = inr resp
        /\ map as_item (SessionCloseResponse.consumed resp)
           = [(Some "milk", Some 5); (Some "soda", Some 2)])
  /\ (exists resp,
        snd (endpoint (session_close fixture_clock
                         (SessionCloseRequest.mk 1 (Some 4) (Some 2)))
                      fixture) = inr resp
        /\ SessionCloseResponse.consumed resp = []).
Proof.
  split; [reflexivity|]. split.
  - destruct (proj2 (close_missing_capture fixture_clock fixture
                (SessionCloseRequest.mk 1 (Some 1) (Some 4)) fixture_session
                eq_refl) ltac:(vm_compute; reflexivity))
      as (sv' & resp & evs & Hrun & _ & _ & Hafter).
    exists resp. split; [now rewrite Hrun|].
    exact (proj2 (Hafter 1 4 eq_refl ltac:(discriminate) eq_refl
                         ltac:(discriminate) eq_refl)).
  - destruct (proj1 (close_missing_capture fixture_clock fixture
                (SessionCloseRequest.mk 1 (Some 4) (Some 2)) fixture_session
                eq_refl) eq_refl)
      as (_ & Hans & Hnone).
    destruct (proj2 Hans ltac:(vm_compute; reflexivity)) as [resp Hresp].
    exists resp. split; [exact Hresp | exact (Hnone resp Hresp)].
Defined.

(** ** The guard of the reconciliation block *)

Lemma lookup_update (s0 : FridgeSession.t) (db : Database) (sid : Z) :
  first (sessions_by_id sid (update_session s0 db))
  = if sid =? FridgeSession.id s0
    then match first (sessions_by_id sid db) with
         | Some _ => Some s0
         | None => None
         end
    else first (sessions_by_id sid db).
Proof.
  unfold sessions_by_id, update_session. cbn [fridge_sessions].
  induction (fridge_sessions db) as [|r l IH].
  - cbn. destruct (sid =? FridgeSession.id s0); reflexivity.
  - cbn [map filter].
    destruct (Z.eqb_spec (FridgeSession.id r) (FridgeSession.id s0)) as [E1|E1];
      destruct (Z.eqb_spec (FridgeSession.id r) sid) as [E2|E2];
      destruct (Z.eqb_spec sid (FridgeSession.id s0)) as [E3|E3];
      try congruence;
      try (destruct (Z.eqb_spec (FridgeSession.id s0) sid); try congruence);
      cbn [first]; try reflexivity.
Qed.

Lemma lookup_closed_row sv p s evs at_ :
  first (sessions_by_id (SessionCloseRequest.session_id p) (store sv))
  = Some s ->
  let row := FridgeSession.close at_
               (SessionCloseRequest.capture_before_id p)
               (SessionCloseRequest.capture_after_id p) s in
  first (sessions_by_id (SessionCloseRequest.session_id p)
           (append_events evs (update_session row (store sv))))
  = Some row.
Proof.
  intros Hs row.
  change (sessions_by_id (SessionCloseRequest.session_id p)
            (append_events evs (update_session row (store sv))))
    with (sessions_by_id (SessionCloseRequest.session_id p)
            (update_session row (store sv))).
  rewrite lookup_update, Hs.
  destruct (sessions_by_id_first _ _ _ Hs) as [Hid _].
  subst row. cbn [FridgeSession.close FridgeSession.id].
  now rewrite Hid, Z.eqb_refl.
Qed.

Lemma commits_guard_closed db p :
  both_captures p = false ->
  commits db p
  = Sql.fits_nullable (SessionCloseRequest.capture_before_id p)
    && Sql.fits_nullable (SessionCloseRequest.capture_after_id p).
Proof. intros H. unfold commits. rewrite H. apply andb_true_r. Qed.

(** C3 (as amended).  On a close call of an existing session the
    reconciliation loop runs exactly when both capture ids are present and
    non-zero: then the call is the loop, started on the rewritten row,
    followed by the commit, which publishes what the loop left unless a row
    was refused.  When an id is absent or zero, no ledger row is written,
    an answer has an empty consumed list, and the call answers exactly when
    the capture ids fit the Integer column.  A call that answers leaves the
    session closed; one that ends in an error leaves the row as it was. *)
Theorem close_engine_guard (utcnow : nat -> Z) (sv : Server)
        (p : SessionCloseRequest.t) (s : FridgeSession.t) :
  first (sessions_by_id (SessionCloseRequest.session_id p) (store sv))
  = Some s ->
  let row := FridgeSession.close (utcnow (clock sv))
               (SessionCloseRequest.capture_before_id p)
               (SessionCloseRequest.capture_after_id p) s in
  (forall b a,
     SessionCloseRequest.capture_before_id p = Some b -> b <> 0 ->
     SessionCloseRequest.capture_after_id p = Some a -> a <> 0 ->
     exists c' r,
       reconcile utcnow row (snapshot (Some a) (store sv))
         (Dict.items (snapshot (Some b) (store sv))) []
         (mkConn (store sv) (update_session row (store sv))
                 (S (clock sv)) (negb (FridgeSession.fits row)))
       = (c', r)
       /\ endpoint (session_close utcnow p) sv
          = match r with
            | inr consumed =>
                if refused c'
                then (mkServer (store sv) (reads c'), inl DataError)
                else (mkServer (pending c') (reads c'),
                      inr (SessionCloseResponse.mk
                             true (FridgeSession.id s) consumed))
            | inl e => (mkServer (store sv) (reads c'), inl e)
            end)
  /\ (SessionCloseRequest.capture_before_id p = None
      \/ SessionCloseRequest.capture_before_id p = Some 0
      \/ SessionCloseRequest.capture_after_id p = None
      \/ SessionCloseRequest.capture_after_id p = Some 0 ->
      consumption_events
        (store (fst (endpoint (session_close utcnow p) sv)))
      = consumption_events (store sv)
      /\ (forall resp,
            snd (endpoint (session_close utcnow p) sv) = inr resp ->
            SessionCloseResponse.consumed resp = [])
      /\ ((exists resp,
             snd (endpoint (session_close utcnow p) sv) = inr resp)
          <-> FridgeSession.fits row = true))
  /\ (forall sv' resp,
        endpoint (session_close utcnow p) sv = (sv', inr resp) ->
        first (sessions_by_id (SessionCloseRequest.session_id p) (store sv'))
        = Some row
        /\ FridgeSession.status row = "closed")
  /\ (forall sv' e,
        endpoint (session_close utcnow p) sv = (sv', inl e) ->
        first (sessions_by_id (SessionCloseRequest.session_id p) (store sv'))
        = Some s).
Proof.
  intros Hs row. split; [|split; [|split]].
  - intros b a Hb Hb0 Ha Ha0.
    rewrite (close_unfold utcnow sv p s Hs). cbv zeta. fold row.
    rewrite (guard_open p b a Hb Hb0 Ha Ha0), Hb, Ha.
    unfold endpoint.
    destruct (depletions (snapshot (Some b) (store sv))
                         (snapshot (Some a) (store sv))) as [ds|] eqn:Hd.
    + destruct (reconcile_run utcnow row _ _ ds []
                  (mkConn (store sv) (update_session row (store sv))
                          (S (clock sv)) (negb (FridgeSession.fits row))) Hd)
        as [evs [Hrun _]].
      eexists _, _. split; [exact Hrun|].
      rewrite (bind_run _ _ _ _ _ Hrun).
      unfold bind, commit, ret. cbn [committed pending reads refused app].
      destruct (_ || _); reflexivity.
    + destruct (reconcile_stuck utcnow row _ _ []
                  (mkConn (store sv) (update_session row (store sv))
                          (S (clock sv)) (negb (FridgeSession.fits row))) Hd)
        as [c' [Hrun [Hcm _]]].
      exists c', (inl TypeError). split; [exact Hrun|].
      rewrite (bind_fail _ _ _ _ _ Hrun). cbn [committed] in Hcm.
      now rewrite Hcm.
  - intros Hoff. pose proof (guard_closed p Hoff) as Hg.
    pose proof (commits_guard_closed (store sv) p Hg) as Hc.
    rewrite <- fits_close with (at_ := utcnow (clock sv)) (s := s) in Hc.
    fold row in Hc. rewrite <- Hc.
    destruct (close_run utcnow sv p s Hs)
      as [[Hc' [evs [Hrun [Hent _]]]]|[Hc' [n [e [Hrun _]]]]];
      rewrite Hrun, Hc'; cbn [fst snd store].
    + rewrite Hg in Hent. injection Hent as Hent.
      rewrite (map_eq_nil_inv _ _ Hent). cbn. rewrite app_nil_r.
      split; [reflexivity|]. split; [intros resp [= <-]; reflexivity|].
      split; eauto.
    + split; [reflexivity|]. split; [discriminate|].
      split; [intros [resp H]|]; discriminate.
  - intros sv' resp Hrun.
    assert (Hc : commits (store sv) p = true).
    { apply (close_returns utcnow sv p s Hs resp). now rewrite Hrun. }
    destruct (close_ok utcnow sv p s Hs Hc) as [evs [Hrun' _]].
    rewrite Hrun' in Hrun. injection Hrun as <- _. cbn [store].
    split; [exact (lookup_closed_row sv p s evs _ Hs) | reflexivity].
  - intros sv' e Hrun.
    destruct (close_run utcnow sv p s Hs)
      as [[_ [evs [Hrun' _]]]|[_ [n [e' [Hrun' _]]]]];
      rewrite Hrun' in Hrun; [discriminate|].
    injection Hrun as <- _. exact Hs.
Qed.

(** C3, counterexample.  In the scenario, on the open session 1.  A close
    with before-capture 1 and after-capture 0 has both ids present; the
    loop on the two dictionaries would report milk 5 and soda 2, but the
    call reports nothing and writes no ledger row.  A close with
    before-capture 9223372036854775808 and no after-capture does not close
    the session: it ends in an error and the row stays open. *)
Lemma close_engine_guard_fails :
  let p := SessionCloseRequest.mk 1 (Some 1) (Some 0) in
  let q := SessionCloseRequest.mk 1 (Some huge) None in
  let row := FridgeSession.close (fixture_clock (clock fixture))
               (Some 1) (Some 0) fixture_session in
  SessionCloseRequest.capture_before_id p = Some 1
  /\ SessionCloseRequest.capture_after_id p = Some 0
  /\ snd (reconcile fixture_clock row (snapshot (Some 0) (store fixture))
            (Dict.items (snapshot (Some 1) (store fixture))) []
            (mkConn (store fixture) (update_session row (store fixture))
                    (S (clock fixture)) false))
     = inr [Consumed.mk (Some "milk") 5; Consumed.mk (Some "soda") 2]
  /\ snd (endpoint (session_close fixture_clock p) fixture)
     = inr (SessionCloseResponse.mk true 1 [])
  /\ consumption_events
       (store (fst (endpoint (session_close fixture_clock p) fixture)))
     = consumption_events (store fixture)
  /\ first (sessions_by_id 1 (store fixture)) = Some fixture_session
  /\ SessionCloseRequest.capture_after_id q = None
  /\ snd (endpoint (session_close fixture_clock q) fixture) = inl DataError
  /\ first (sessions_by_id 1
              (store (fst (endpoint (session_close fixture_clock q)
                                    fixture))))
     = Some fixture_session
  /\ FridgeSession.status fixture_session = "open".
Proof. by_evaluation. Qed.

(** C3, instance: closing session 1 of the scenario with captures 1 and 2
    is the loop followed by the commit; closing it with no capture ids
    reports nothing. *)
Lemma close_engine_guard_witness :
  let p := SessionCloseRequest.mk 1 (Some 1) (Some 2) in
  let row := FridgeSession.close (fixture_clock (clock fixture))
               (SessionCloseRequest.capture_before_id p)
               (SessionCloseRequest.capture_after_id p) fixture_session in
  first (sessions_by_id 1 (store fixture)) = Some fixture_session
  /\ (exists c' r,
        reconcile fixture_clock row (snapshot (Some 2) (store fixture))
          (Dict.items (snapshot (Some 1) (store fixture))) []
          (mkConn (store fixture) (update_session row (store fixture))
                  (S (clock fixture)) (negb (FridgeSession.fits row)))
        = (c', r)
        /\ endpoint (session_close fixture_clock p) fixture
           = match r with
             | inr consumed =>
                 if refused c'
                 then (mkServer (store fixture) (reads c'), inl DataError)
                 else (mkServer (pending c') (reads c'),
                       inr (SessionCloseResponse.mk
                              true (FridgeSession.id fixture_session)
                              consumed))
             | inl e => (mkServer (store fixture) (reads c'), inl e)
             end)
  /\ (exists resp,
        snd (endpoint (session_close fixture_clock
                         (SessionCloseRequest.mk 1 None None))
                      fixture) = inr resp
        /\ SessionCloseResponse.consumed resp = []).
Proof.
  cbv zeta. split; [reflexivity|]. split.
  - exact (proj1 (close_engine_guard fixture_clock fixture
                    (SessionCloseRequest.mk 1 (Some 1) (Some 2))
                    fixture_session eq_refl)
                 1 2 eq_refl ltac:(discriminate) eq_refl
                 ltac:(discriminate)).
  - destruct (proj1 (proj2 (close_engine_guard fixture_clock fixture
                              (SessionCloseRequest.mk 1 None None)
                              fixture_session eq_refl))
                    (or_introl eq_refl))
      as (_ & Hnone & Hans).
    destruct (proj2 Hans eq_refl) as [resp Hresp].
    exists resp. split; [exact Hresp | exact (Hnone resp Hresp)].
Defined.

(** ** Labels that are not in the before-snapshot *)

(** C6.  A label that no row of the before-capture carries gets no entry
    in [consumed] and no ledger row from a close call, whatever the
    after-capture holds for it. *)
Theorem no_restock_detection (utcnow : nat -> Z) (sv : Server)
        (p : SessionCloseRequest.t) (l : Dict.key) :
  ~ In l (map VisionItem.label
              (items_of_capture (SessionCloseRequest.capture_before_id p)
                                (store sv))) ->
  exists evs,
    consumption_events
      (store (fst (endpoint (session_close utcnow p) sv)))
    = consumption_events (store sv) ++ evs
    /\ filter (about_label l) evs = []
    /\ forall resp,
         snd (endpoint (session_close utcnow p) sv) = inr resp ->
         filter (has_label l) (SessionCloseResponse.consumed resp) = [].
Proof.
  intros Hout.
  destruct (first (sessions_by_id (SessionCloseRequest.session_id p)
                                  (store sv))) as [s|] eqn:Hs.
  - destruct (close_run utcnow sv p s Hs)
      as [[_ [evs [Hrun [Hent _]]]]|[_ [n [e [Hrun _]]]]].
    + assert (Hoff : filter (has_label l) (map event_entry evs) = []).
      { destruct (both_captures p).
        - symmetry in Hent. apply (depletions_off _ _ _ l Hent).
          now rewrite snapshot_keys.
        - injection Hent as ->. reflexivity. }
      exists evs. rewrite Hrun. cbn [fst snd store]. split; [reflexivity|].
      split.
      * apply (map_eq_nil_inv event_entry). now rewrite about_label_entries.
      * intros resp [= <-]. exact Hoff.
    + exists []. rewrite Hrun. cbn [fst snd store].
      split; [now rewrite app_nil_r|]. split; [reflexivity|]. discriminate.
  - exists []. rewrite (close_unknown utcnow sv p Hs). cbn [fst snd].
    split; [now rewrite app_nil_r|]. split; [reflexivity|]. discriminate.
Qed.

(** C6, instance: in the scenario beer is seen in capture 2 only (9 units),
    and a close with captures 1 and 2 reports nothing about beer. *)
Lemma no_restock_detection_witness :
  let p := SessionCloseRequest.mk 1 (Some 1) (Some 2) in
  Dict.get (snapshot (Some 2) (store fixture)) (Some "beer") = Some (Some 9)
  /\ Dict.get (snapshot (Some 1) (store fixture)) (Some "beer") = None
  /\ exists evs,
       consumption_events
         (store (fst (endpoint (session_close fixture_clock p) fixture)))
       = consumption_events (store fixture) ++ evs
       /\ filter (about_label (Some "beer")) evs = [].
Proof.
  split; [reflexivity|]. split; [reflexivity|].
  destruct (no_restock_detection fixture_clock fixture
              (SessionCloseRequest.mk 1 (Some 1) (Some 2)) (Some "beer"))
    as (evs & Hev & Hoff & _).
  - vm_compute. intros [H|[H|[]]]; discriminate H.
  - exists evs. split; [exact Hev | exact Hoff].
Defined.

(** ** What a ledger row carries *)

(** C8.  Every ledger row written by a close call carries the id and the
    [employee_id] of the stored session row, a label of the
    before-dictionary B with the quantity [B[label] - A.get(label, 0)], and
    that quantity is strictly positive and fits the Integer column; when
    the call answers, the rows are, in order, the entries of [consumed].
    Snapshot quantities are arbitrary integers or missing. *)
Theorem close_events_attributed (utcnow : nat -> Z) (sv : Server)
        (p : SessionCloseRequest.t) (s : FridgeSession.t) :
  first (sessions_by_id (SessionCloseRequest.session_id p) (store sv))
  = Some s ->
  exists evs,
    consumption_events
      (store (fst (endpoint (session_close utcnow p) sv)))
    = consumption_events (store sv) ++ evs
    /\ (forall resp,
          snd (endpoint (session_close utcnow p) sv) = inr resp ->
          map event_entry evs = SessionCloseResponse.consumed resp)
    /\ Forall
         (fun ev =>
            ConsumptionEvent.session_id ev = FridgeSession.id s
            /\ ConsumptionEvent.employee_id ev = FridgeSession.employee_id s
            /\ ConsumptionEvent.quantity ev > 0
            /\ Sql.fits_Integer (ConsumptionEvent.quantity ev) = true
            /\ exists qb qa,
                 Dict.get (snapshot (SessionCloseRequest.capture_before_id p)
                                    (store sv))
                          (ConsumptionEvent.product_label ev)
                 = Some (Some qb)
                 /\ Dict.get_default
                      (snapshot (SessionCloseRequest.capture_after_id p)
                                (store sv))
                      (ConsumptionEvent.product_label ev) (Some 0)
                    = Some qa
                 /\ ConsumptionEvent.quantity ev = qb - qa)
         evs.
Proof.
  intros Hs.
  destruct (close_run utcnow sv p s Hs)
    as [[Hc [evs [Hrun [Hent Hall]]]]|[_ [n [e [Hrun _]]]]].
  - exists evs. rewrite Hrun. cbn [fst snd store].
    split; [reflexivity|]. split; [intros resp [= <-]; reflexivity|].
    rewrite Forall_forall in *. intros ev Hin.
    destruct (Hall ev Hin) as [Hsid Heid]. split; [exact Hsid|].
    split; [exact Heid|].
    assert (Hmem : In (event_entry ev) (map event_entry evs))
      by (now apply in_map).
    unfold commits in Hc.
    destruct (both_captures p);
      [|injection Hent as Hent; rewrite Hent in Hmem; contradiction].
    symmetry in Hent. rewrite Hent in Hc.
    apply andb_prop in Hc. destruct Hc as [_ Hfit].
    rewrite forallb_forall in Hfit. specialize (Hfit _ Hmem).
    destruct (depletions_label _ _ _ _ Hent Hmem)
      as [qb [qa [Hb [Ha [Hq Hpos]]]]].
    cbn [event_entry Consumed.label Consumed.quantity] in Hb, Ha, Hq, Hpos,
      Hfit.
    split; [exact Hpos|]. split; [exact Hfit|].
    exists qb, qa. split; [|split; [exact Ha | exact Hq]].
    apply DictFacts.In_get; [apply snapshot_keys_NoDup | exact Hb].
  - exists []. rewrite Hrun. cbn [fst snd store].
    split; [now rewrite app_nil_r|]. split; [discriminate|constructor].
Qed.

(** C8, instance: session 1 of the scenario closed with before-capture 2
    and after-capture 3, where beer goes from 9 to -2 and milk from 3 to 5:
    one row is written, for employee 1, with a positive quantity. *)
Lemma close_events_attributed_witness :
  let p := SessionCloseRequest.mk 1 (Some 2) (Some 3) in
  first (sessions_by_id 1 (store fixture)) = Some fixture_session
  /\ exists evs,
       consumption_events
         (store (fst (endpoint (session_close fixture_clock p) fixture)))
       = consumption_events (store fixture) ++ evs
       /\ map event_entry evs = [Consumed.mk (Some "beer") 11]
       /\ Forall (fun ev => ConsumptionEvent.employee_id ev = 1
                            /\ ConsumptionEvent.quantity ev > 0) evs.
Proof.
  cbv zeta. split; [reflexivity|].
  destruct (close_events_attributed fixture_clock fixture
              (SessionCloseRequest.mk 1 (Some 2) (Some 3)) fixture_session
              eq_refl)
    as (evs & Hev & Hent & Hall).
  exists evs. split; [exact Hev|]. split.
  - exact (Hent (SessionCloseResponse.mk true 1 [Consumed.mk (Some "beer") 11])
                ltac:(vm_compute; reflexivity)).
  - refine (Forall_impl _ _ Hall).
    intros ev (_ & Heid & Hpos & _). split; [exact Heid | exact Hpos].
Defined.

(** ** Frame of a close *)

(** C10 (as amended).  A close call on an existing session rewrites, in the
    stored row of that session, at most [closed_at], [capture_before_id],
    [capture_after_id] and [status]: [id], [employee_id], [device_id],
    [opened_at] and [notes] keep their values, and rows of other sessions,
    employees and vision items are untouched.  When the call answers, which
    it does exactly when the database carries it through ([commits]), the
    two capture fields hold the request's values, whatever they are; a
    request without capture ids always answers and stores [None] in both.
    When the call ends in an error, the row is as it was. *)
Theorem close_frame (utcnow : nat -> Z) (sv : Server)
        (p : SessionCloseRequest.t) (s : FridgeSession.t) :
  first (sessions_by_id (SessionCloseRequest.session_id p) (store sv))
  = Some s ->
  exists s',
    first (sessions_by_id (SessionCloseRequest.session_id p)
             (store (fst (endpoint (session_close utcnow p) sv))))
    = Some s'
    /\ (FridgeSession.id s' = FridgeSession.id s
        /\ FridgeSession.employee_id s' = FridgeSession.employee_id s
        /\ FridgeSession.device_id s' = FridgeSession.device_id s
        /\ FridgeSession.opened_at s' = FridgeSession.opened_at s
        /\ FridgeSession.notes s' = FridgeSession.notes s)
    /\ ((exists resp,
           snd (endpoint (session_close utcnow p) sv) = inr resp)
        <-> commits (store sv) p = true)
    /\ (commits (store sv) p = true ->
        FridgeSession.closed_at s' = Some (utcnow (clock sv))
        /\ FridgeSession.capture_before_id s'
           = SessionCloseRequest.capture_before_id p
        /\ FridgeSession.capture_after_id s'
           = SessionCloseRequest.capture_after_id p
        /\ FridgeSession.status s' = "closed")
    /\ (commits (store sv) p = false -> s' = s)
    /\ (SessionCloseRequest.capture_before_id p = None ->
        SessionCloseRequest.capture_after_id p = None ->
        commits (store sv) p = true)
    /\ (forall sid,
          sid <> SessionCloseRequest.session_id p ->
          first (sessions_by_id sid
                   (store (fst (endpoint (session_close utcnow p) sv))))
          = first (sessions_by_id sid (store sv)))
    /\ employees (store (fst (endpoint (session_close utcnow p) sv)))
       = employees (store sv)
    /\ vision_items (store (fst (endpoint (session_close utcnow p) sv)))
       = vision_items (store sv).
Proof.
  intros Hs.
  assert (Hnone : SessionCloseRequest.capture_before_id p = None ->
                  SessionCloseRequest.capture_after_id p = None ->
                  commits (store sv) p = true).
  { intros Hb Ha. unfold commits, both_captures. now rewrite Hb, Ha. }
  destruct (close_run utcnow sv p s Hs)
    as [[Hc [evs [Hrun _]]]|[Hc [n [e [Hrun _]]]]];
    rewrite Hrun, Hc; cbn [fst snd store].
  - eexists. split; [exact (lookup_closed_row sv p s evs _ Hs)|].
    split; [repeat split|]. split; [split; eauto|].
    split; [intros _; repeat split|]. split; [discriminate|].
    split; [reflexivity|]. split; [|split; reflexivity].
    intros sid Hsid.
    match goal with
    | |- first (sessions_by_id _ (append_events _ (update_session ?row ?db)))
         = _ =>
        change (first (sessions_by_id sid (update_session row db))
                = first (sessions_by_id sid db));
        rewrite lookup_update
    end.
    destruct (sessions_by_id_first _ _ _ Hs) as [Hid _].
    cbn [FridgeSession.close FridgeSession.id]. rewrite Hid.
    destruct (Z.eqb_spec sid (SessionCloseRequest.session_id p));
      [contradiction|reflexivity].
  - exists s. split; [exact Hs|]. split; [repeat split|].
    split; [split; [intros [resp H]|]; discriminate|].
    split; [discriminate|]. split; [reflexivity|].
    split; [intros Hb Ha; rewrite (Hnone Hb Ha) in Hc; discriminate|].
    split; [reflexivity|]. split; reflexivity.
Qed.

(** C10, counterexample.  In the scenario, a close of the open session 1
    with before-capture 9223372036854775808 and no after-capture: the
    capture field of the stored row is not overwritten with the request's
    value, the row stays as it was. *)
Lemma close_frame_fails :
  let p := SessionCloseRequest.mk 1 (Some huge) None in
  first (sessions_by_id 1 (store fixture)) = Some fixture_session
  /\ first (sessions_by_id 1
              (store (fst (endpoint (session_close fixture_clock p)
                                    fixture))))
     = Some fixture_session
  /\ FridgeSession.capture_before_id fixture_session = None
  /\ SessionCloseRequest.capture_before_id p = Some huge
  /\ snd (endpoint (session_close fixture_clock p) fixture) = inl DataError.
Proof. by_evaluation. Qed.

(** C10, instance: session 1 of the scenario, closed once with captures 1
    and 2 and closed again with no capture ids, has both capture fields
    back at [None] and still belongs to employee 1 on fridge-1. *)
Lemma close_frame_witness :
  let p := SessionCloseRequest.mk 1 None None in
  first (sessions_by_id 1 (store fixture_closed))
  = Some fixture_closed_session
  /\ exists s',
       first (sessions_by_id 1
                (store (fst (endpoint (session_close fixture_clock p)
                                      fixture_closed))))
       = Some s'
       /\ FridgeSession.capture_before_id s' = None
       /\ FridgeSession.capture_after_id s' = None
       /\ FridgeSession.employee_id s' = 1
       /\ FridgeSession.device_id s' = "fridge-1".
Proof.
  cbv zeta. split; [vm_compute; reflexivity|].
  destruct (close_frame fixture_clock fixture_closed
              (SessionCloseRequest.mk 1 None None) fixture_closed_session
              ltac:(vm_compute; reflexivity))
    as (s' & Hlook & Hkeep & _ & Hset & _ & Hnone & _).
  exists s'. split; [exact Hlook|].
  destruct Hkeep as (_ & Heid & Hdev & _).
  destruct (Hset (Hnone eq_refl eq_refl)) as (_ & Hb & Ha & _).
  repeat apply conj; assumption.
Defined.

(** ** Lookup failures *)


(** ** Requests and the session table *)

Lemma lookup_insert_session sid db row s :
  first (sessions_by_id sid db) = Some s ->
  first (sessions_by_id sid (insert_session row db)) = Some s.
Proof.
  unfold sessions_by_id, insert_session. cbn [fridge_sessions].
  rewrite filter_app. apply first_app_some.
Qed.

(** A request leaves a stored session row as it is, unless it is a close
    of that session, which turns the row into its closed form. *)
Lemma serve_lookup (utcnow : nat -> Z) sv r sid s :
  first (sessions_by_id sid (store sv)) = Some s ->
  exists s',
    first (sessions_by_id sid (store (serve utcnow sv r))) = Some s'
    /\ (s' = s
        \/ exists p at_,
             r = PostSessionClose p
             /\ s' = FridgeSession.close at_
                       (SessionCloseRequest.capture_before_id p)
                       (SessionCloseRequest.capture_after_id p) s).
Proof.
  intros Hs. destruct r as [p|p|p|code|rows]; cbn [serve].
  - destruct (first (employees_by_code (EmployeeCreate.employee_code p)
                                       (store sv))) as [e|] eqn:He.
    + rewrite (create_conflict utcnow sv p e He). eauto.
    + destruct (create_run utcnow sv p He) as (e & -> & _). eauto.
  - destruct (first (employees_by_code
                       (SessionStartRequest.employee_code p) (store sv)))
      as [emp|] eqn:He.
    + rewrite (start_run utcnow sv p emp He). cbn [fst store].
      exists s. split; [now apply lookup_insert_session | now left].
    + rewrite (start_unknown utcnow sv p He). eauto.
  - destruct (first (sessions_by_id (SessionCloseRequest.session_id p)
                                    (store sv))) as [s0|] eqn:Hs0.
    + destruct (close_run utcnow sv p s0 Hs0)
        as [[_ [evs [Hrun _]]]|[_ [n [e [Hrun _]]]]];
        rewrite Hrun; cbn [fst store]; [|eauto].
      match goal with
      | |- context [append_events _ (update_session ?row ?db)] =>
          change (sessions_by_id sid (append_events evs (update_session row db)))
            with (sessions_by_id sid (update_session row db))
      end.
      rewrite lookup_update, Hs.
      cbn [FridgeSession.close FridgeSession.id].
      destruct (sessions_by_id_first _ _ _ Hs0) as [Hid _]. rewrite Hid.
      destruct (Z.eqb_spec sid (SessionCloseRequest.session_id p)) as [E|E].
      * subst sid. assert (s0 = s) by congruence. subst s0.
        eexists. split; [reflexivity|]. right. eauto.
      * eauto.
    + rewrite (close_unknown utcnow sv p Hs0). eauto.
  - rewrite list_run. eauto.
  - eauto.
Qed.

(** C4 (as amended).  The status of a stored session changes only to
    "closed": after any request it is what it was, or "closed"; and
    [session_start] creates its row with status "open".  A close call on a
    session that is already closed is not rejected: no [HTTPException] is
    raised, and when the database carries the call through ([commits]) it
    answers like a first close, with the consumption list computed again
    from the two captures, and appends one ledger row per entry. *)
Theorem session_status_machine (utcnow : nat -> Z) (sv : Server)
        (sid : Z) (s : FridgeSession.t) :
  first (sessions_by_id sid (store sv)) = Some s ->
  (forall r, exists s',
       first (sessions_by_id sid (store (serve utcnow sv r))) = Some s'
       /\ (FridgeSession.status s' = FridgeSession.status s
           \/ FridgeSession.status s' = "closed"))
  /\ (forall p sv' resp,
        endpoint (session_start utcnow p) sv = (sv', inr resp) ->
        exists row,
          fridge_sessions (store sv') = fridge_sessions (store sv) ++ [row]
          /\ FridgeSession.id row = SessionStartResponse.session_id resp
          /\ FridgeSession.status row = "open")
  /\ (FridgeSession.status s = "closed" ->
      forall p,
        SessionCloseRequest.session_id p = sid ->
        (forall e : HTTPException,
           snd (endpoint (session_close utcnow p) sv) <> inl (Raised e))
        /\ (commits (store sv) p = true ->
            exists sv' resp evs,
              endpoint (session_close utcnow p) sv = (sv', inr resp)
              /\ consumption_events (store sv')
                 = consumption_events (store sv) ++ evs
              /\ map event_entry evs = SessionCloseResponse.consumed resp
              /\ Some (SessionCloseResponse.consumed resp)
                 = if both_captures p
                   then depletions
                          (snapshot (SessionCloseRequest.capture_before_id p)
                                    (store sv))
                          (snapshot (SessionCloseRequest.capture_after_id p)
                                    (store sv))
                   else Some [])).
Proof.
  intros Hs. split; [|split].
  - intros r. destruct (serve_lookup utcnow sv r sid s Hs)
      as (s' & Hlook & [->|(p & at_ & _ & ->)]);
      exists s' + eexists; (split; [exact Hlook|]); [now left | now right].
  - intros p sv' resp Hrun.
    destruct (first (employees_by_code
                       (SessionStartRequest.employee_code p) (store sv)))
      as [emp|] eqn:He.
    + rewrite (start_run utcnow sv p emp He) in Hrun.
      injection Hrun as <- <-. eexists. repeat split.
    + rewrite (start_unknown utcnow sv p He) in Hrun. discriminate.
  - intros _ p Hp. subst sid. split.
    + intros e.
      destruct (close_run utcnow sv p s Hs)
        as [[_ [evs [Hrun _]]]|[_ [n [e' [Hrun [_ He]]]]]];
        rewrite Hrun; cbn [snd]; [discriminate|].
      destruct He as [->| ->]; discriminate.
    + intros Hc.
      destruct (close_ok utcnow sv p s Hs Hc) as (evs & Hrun & Hent & _).
      eexists _, _, evs. split; [exact Hrun|]. split; [reflexivity|].
      split; [reflexivity|]. exact Hent.
Qed.

(** C4, counterexample.  In the scenario after its close, session 1 has
    status "closed" and the ledger holds two rows; a second close call with
    the same captures answers with success and the same consumption list,
    and the ledger then holds four rows. *)
Lemma session_status_machine_double_close :
  let p := SessionCloseRequest.mk 1 (Some 1) (Some 2) in
  first (sessions_by_id 1 (store fixture_closed))
  = Some fixture_closed_session
  /\ FridgeSession.status fixture_closed_session = "closed"
  /\ map event_entry (consumption_events (store fixture_closed))
     = [Consumed.mk (Some "milk") 2; Consumed.mk (Some "soda") 2]
  /\ snd (endpoint (session_close fixture_clock p) fixture_closed)
     = inr (SessionCloseResponse.mk true 1
              [Consumed.mk (Some "milk") 2; Consumed.mk (Some "soda") 2])
  /\ map event_entry
       (consumption_events
          (store (fst (endpoint (session_close fixture_clock p)
                                fixture_closed))))
     = [Consumed.mk (Some "milk") 2; Consumed.mk (Some "soda") 2;
        Consumed.mk (Some "milk") 2; Consumed.mk (Some "soda") 2].
Proof. by_evaluation. Qed.

(** C4, instance: session 1 of the scenario is open, is closed by a close
    call, and stays closed under a further close call. *)
Lemma session_status_machine_witness :
  let p := SessionCloseRequest.mk 1 None None in
  first (sessions_by_id 1 (store fixture)) = Some fixture_session
  /\ (exists s',
        first (sessions_by_id 1
                 (store (serve fixture_clock fixture (PostSessionClose p))))
        = Some s'
        /\ (FridgeSession.status s' = "open"
            \/ FridgeSession.status s' = "closed"))
  /\ first (sessions_by_id 1 (store fixture_closed))
     = Some fixture_closed_session
  /\ exists resp,
       snd (endpoint (session_close fixture_clock p) fixture_closed)
       = inr resp.
Proof.
  cbv zeta. split; [reflexivity|]. split.
  - exact (proj1 (session_status_machine fixture_clock fixture 1
                    fixture_session eq_refl)
                 (PostSessionClose (SessionCloseRequest.mk 1 None None))).
  - split; [vm_compute; reflexivity|].
    destruct (proj2 (proj2 (proj2 (session_status_machine fixture_clock
                              fixture_closed 1 fixture_closed_session
                              ltac:(vm_compute; reflexivity)))
                    eq_refl (SessionCloseRequest.mk 1 None None) eq_refl)
                    ltac:(vm_compute; reflexivity))
      as (sv' & resp & evs & Hrun & _).
    exists resp. now rewrite Hrun.
Defined.

(** ** The ledger *)

Lemma filter_unique_le1 {A} (f : A -> Dict.key) (g : A -> bool) l
      (xs : list A) :
  NoDup (map f xs) ->
  (length (filter (fun x => g x && Dict.key_eqb (f x) l) xs) <= 1)%nat.
Proof.
  induction xs as [|x xs IH]; cbn [map filter length]; [lia|].
  intros Hnd. inversion Hnd as [|? ? Hout Hnd']; subst.
  destruct (g x && Dict.key_eqb (f x) l) eqn:Hx; [|auto].
  apply andb_true_iff in Hx. destruct Hx as [_ Hx].
  destruct (DictFacts.key_eqb_spec (f x) l) as [Hx'|]; [|discriminate].
  assert (Hnone : filter (fun y => g y && Dict.key_eqb (f y) l) xs = []).
  { apply filter_none. intros y Hy.
    destruct (DictFacts.key_eqb_spec (f y) l) as [E|E]; [|apply andb_false_r].
    exfalso. apply Hout. rewrite Hx', <- E. now apply in_map. }
  rewrite Hnone. cbn. lia.
Qed.

Lemma filter_other_session sid l evs x :
  Forall (fun ev => ConsumptionEvent.session_id ev = x) evs ->
  x <> sid ->
  filter (fun ev => (ConsumptionEvent.session_id ev =? sid)
                    && about_label l ev) evs = [].
Proof.
  intros Hall Hx. apply filter_none. intros ev Hin.
  rewrite Forall_forall in Hall. rewrite (Hall ev Hin).
  destruct (Z.eqb_spec x sid); [contradiction|reflexivity].
Qed.

Lemma event_labels evs :
  map ConsumptionEvent.product_label evs
  = map Consumed.label (map event_entry evs).
Proof. now rewrite map_map. Qed.

(** The rows one close call appends. *)
Lemma close_appends (utcnow : nat -> Z) sv p :
  exists evs,
    consumption_events (store (fst (endpoint (session_close utcnow p) sv)))
    = consumption_events (store sv) ++ evs
    /\ NoDup (map ConsumptionEvent.product_label evs)
    /\ Forall (fun ev => ConsumptionEvent.session_id ev
                         = SessionCloseRequest.session_id p) evs.
Proof.
  destruct (first (sessions_by_id (SessionCloseRequest.session_id p)
                                  (store sv))) as [s|] eqn:Hs.
  - destruct (close_run utcnow sv p s Hs)
      as [[_ [evs [Hrun [Hent Hall]]]]|[_ [n [e [Hrun _]]]]].
    + exists evs. rewrite Hrun. cbn [fst store]. split; [reflexivity|].
      split.
      * rewrite event_labels. destruct (both_captures p).
        -- symmetry in Hent.
           exact (depletions_NoDup _ _ _ (snapshot_keys_NoDup _ _) Hent).
        -- injection Hent as ->. constructor.
      * destruct (sessions_by_id_first _ _ _ Hs) as [Hid _].
        rewrite Forall_forall in *. intros ev Hin.
        destruct (Hall ev Hin) as [H _]. congruence.
    + exists []. rewrite Hrun. cbn [fst store].
      split; [now rewrite app_nil_r|]. split; constructor.
  - exists []. rewrite (close_unknown utcnow sv p Hs). cbn [fst].
    split; [now rewrite app_nil_r|]. split; constructor.
Qed.

Lemma serve_ledger (utcnow : nat -> Z) sv r sid l :
  (length (ledger_entries sid l (store (serve utcnow sv r)))
   <= length (ledger_entries sid l (store sv)) + close_calls sid [r])%nat.
Proof.
  destruct r as [p|p|p|code|rows]; cbn [serve].
  - destruct (first (employees_by_code (EmployeeCreate.employee_code p)
                                       (store sv))) as [e|] eqn:He.
    + rewrite (create_conflict utcnow sv p e He). lia.
    + destruct (create_run utcnow sv p He) as (e & -> & _).
      unfold ledger_entries. cbn [store insert_employee consumption_events].
      lia.
  - destruct (first (employees_by_code
                       (SessionStartRequest.employee_code p) (store sv)))
      as [emp|] eqn:He.
    + rewrite (start_run utcnow sv p emp He).
      unfold ledger_entries.
      cbn [fst store insert_session consumption_events]. lia.
    + rewrite (start_unknown utcnow sv p He). cbn [fst]. lia.
  - destruct (close_appends utcnow sv p) as (evs & Hev & Hnd & Hall).
    unfold ledger_entries. rewrite Hev, filter_app, length_app.
    apply Nat.add_le_mono_l.
    unfold close_calls. cbn [filter].
    destruct (Z.eqb_spec (SessionCloseRequest.session_id p) sid) as [E|E].
    + cbn [length]. unfold about_label.
      apply (filter_unique_le1 ConsumptionEvent.product_label
               (fun ev => ConsumptionEvent.session_id ev =? sid) l evs Hnd).
    + rewrite (filter_other_session sid l evs _ Hall E). cbn. lia.
  - rewrite list_run. cbn [fst]. lia.
  - unfold ledger_entries. cbn [store consumption_events]. lia.
Qed.

(** C5 (as amended).  One close call never appends two ledger rows with
    the same label, and every row it appends belongs to the session it
    closes.  Hence, over any sequence of requests, the number of ledger rows
    of a (session, label) pair grows by at most the number of close calls
    made on that session: by at most one when the session is closed once. *)
Theorem ledger_entries_per_close (utcnow : nat -> Z) :
  (forall sv p, exists evs,
      consumption_events (store (fst (endpoint (session_close utcnow p) sv)))
      = consumption_events (store sv) ++ evs
      /\ NoDup (map ConsumptionEvent.product_label evs)
      /\ Forall (fun ev => ConsumptionEvent.session_id ev
                           = SessionCloseRequest.session_id p) evs)
  /\ forall rs sv sid l,
       (length (ledger_entries sid l (store (serve_all utcnow sv rs)))
        <= length (ledger_entries sid l (store sv)) + close_calls sid rs)%nat.
Proof.
  split; [apply close_appends|].
  induction rs as [|r rs IH]; intros sv sid l.
  - cbn. lia.
  - cbn [serve_all fold_left]. fold (serve_all utcnow (serve utcnow sv r) rs).
    specialize (IH (serve utcnow sv r) sid l).
    pose proof (serve_ledger utcnow sv r sid l) as Hr.
    change (close_calls sid (r :: rs))
      with (length (filter (fun r => match r with
                                     | PostSessionClose p =>
                                         SessionCloseRequest.session_id p =? sid
                                     | _ => false
                                     end) ([r] ++ rs))).
    rewrite filter_app, length_app.
    fold (close_calls sid [r]). fold (close_calls sid rs). lia.
Qed.

(** C5, counterexample.  Two close calls on session 1 of the scenario,
    both with captures 1 and 2, leave two ledger rows for the pair
    (session 1, milk). *)
Lemma ledger_entries_double_close :
  let p := SessionCloseRequest.mk 1 (Some 1) (Some 2) in
  let sv := serve_all fixture_clock fixture
                      [PostSessionClose p; PostSessionClose p] in
  consumption_events (store fixture) = []
  /\ map event_entry (ledger_entries 1 (Some "milk") (store sv))
     = [Consumed.mk (Some "milk") 2; Consumed.mk (Some "milk") 2].
Proof. by_evaluation. Qed.

(** ** Listing sessions *)

Lemma opened_geb_total a b : opened_geb a b = false -> opened_geb b a = true.
Proof.
  destruct a as [x|], b as [y|]; cbn; try easy.
  intros H. apply Z.leb_gt in H. apply Z.leb_le. lia.
Qed.

Lemma opened_geb_trans a b c :
  opened_geb a b = true -> opened_geb b c = true -> opened_geb a c = true.
Proof.
  destruct a as [x|], b as [y|], c as [z|]; cbn; try easy.
  rewrite !Z.leb_le. lia.
Qed.

Lemma insert_desc_perm row rows :
  Permutation (insert_desc row rows) (row :: rows).
Proof.
  induction rows as [|r rest IH]; cbn [insert_desc]; [reflexivity|].
  destruct (opened_geb _ _); [reflexivity|].
  rewrite IH. apply perm_swap.
Qed.

Lemma order_by_perm rows : Permutation (order_by_opened_at_desc rows) rows.
Proof.
  induction rows as [|r rest IH]; cbn; [reflexivity|].
  fold (order_by_opened_at_desc rest). rewrite insert_desc_perm. now constructor.
Qed.

Lemma insert_desc_sorted row rows :
  Sorted (fun x y => not_before (list_item x) (list_item y)) rows ->
  Sorted (fun x y => not_before (list_item x) (list_item y))
         (insert_desc row rows).
Proof.
  assert (Hkey : forall x y,
             not_before (list_item x) (list_item y)
             <-> opened_geb (row_opened_at x) (row_opened_at y) = true).
  { intros [[sx cx] nx] [[sy cy] ny]. reflexivity. }
  induction rows as [|r rest IH]; intros Hs; cbn [insert_desc].
  - repeat constructor.
  - inversion Hs as [|? ? Hrest Hhd]; subst.
    destruct (opened_geb (row_opened_at row) (row_opened_at r)) eqn:Hcmp.
    + constructor; [exact Hs|]. constructor. now apply Hkey.
    + constructor; [now apply IH|].
      apply opened_geb_total in Hcmp.
      destruct rest as [|r' rest']; cbn [insert_desc].
      * constructor. now apply Hkey.
      * inversion Hhd; subst.
        destruct (opened_geb (row_opened_at row) (row_opened_at r'));
          constructor; [now apply Hkey | assumption].
Qed.

Lemma order_by_sorted rows :
  StronglySorted not_before (map list_item (order_by_opened_at_desc rows)).
Proof.
  apply Sorted_StronglySorted.
  - intros x y z. unfold not_before. apply opened_geb_trans.
  - assert (H : Sorted (fun x y => not_before (list_item x) (list_item y))
                       (order_by_opened_at_desc rows)).
    { induction rows as [|r rest IH]; [constructor|].
      cbn. now apply insert_desc_sorted. }
    induction H as [|x l Hl IH Hhd]; cbn [map]; constructor; [exact IH|].
    destruct Hhd; cbn [map]; constructor. assumption.
Qed.

Lemma filter_at_most_one {A} (f : A -> Z) (a : Z) (l : list A) :
  NoDup (map f l) ->
  filter (fun x => a =? f x) l
  = match first (filter (fun x => a =? f x) l) with
    | Some x => [x]
    | None => []
    end.
Proof.
  induction l as [|x l IH]; cbn [map filter]; [reflexivity|].
  intros Hnd. inversion Hnd as [|? ? Hout Hnd']; subst.
  destruct (Z.eqb_spec a (f x)) as [E|E]; cbn [first]; [|auto].
  f_equal. apply filter_none. intros y Hy.
  apply Z.eqb_neq. intros E'. apply Hout. rewrite <- E, E'. now apply in_map.
Qed.

(** The listing before ORDER BY, one session at a time. *)
Lemma listing_closed_form db code :
  NoDup (map Employee.id (employees db)) ->
  map list_item
      (if Py.truthy_str code
       then filter (code_is code) (join_employees db)
       else join_employees db)
  = flat_map
      (fun s =>
         match employee_of db s with
         | Some e =>
             if listed code e
             then [list_item (s, Employee.employee_code e, Employee.name e)]
             else []
         | None => []
         end)
      (fridge_sessions db).
Proof.
  intros Hnd. unfold join_employees, employee_of.
  induction (fridge_sessions db) as [|s l IH].
  - destruct (Py.truthy_str code); reflexivity.
  - cbn [flat_map].
    rewrite (filter_at_most_one Employee.id (FridgeSession.employee_id s)
               (employees db) Hnd).
    destruct (Py.truthy_str code) eqn:Ht.
    + rewrite filter_app, map_app, IH. f_equal.
      destruct (first _) as [e|]; [|reflexivity].
      destruct code as [c|]; [|discriminate]. cbn in Ht.
      apply negb_true_iff in Ht.
      cbn [map filter code_is fst snd listed first]. rewrite Ht.
      destruct (Employee.employee_code e =? c)%string; reflexivity.
    + rewrite map_app, IH. f_equal.
      destruct (first _) as [e|]; [|reflexivity].
      assert (Hl : listed code e = true).
      { destruct code as [c|]; [|reflexivity]. cbn in Ht.
        apply negb_false_iff in Ht. cbn. now rewrite Ht. }
      cbn [first]. rewrite Hl. reflexivity.
Qed.

(** C9 (as amended).  In every state, [sessions_list] leaves the state as
    it is and answers with the joined rows of sessions and employees,
    restricted to the rows of the given code when the argument is given and
    not the empty string, in descending order of [opened_at] (a missing
    [opened_at] last).  With the argument absent or empty all rows are
    listed.  Where employee ids are distinct this is one item per session
    that has an employee row. *)
Theorem sessions_list_ordered (sv : Server) (code : option string) :
  exists items,
    endpoint (sessions_list code) sv = (sv, inr items)
    /\ StronglySorted not_before items
    /\ Permutation items
         (map list_item
              (match code with
               | Some c =>
                   if (c =? "")%string then join_employees (store sv)
                   else filter (fun row => (snd (fst row) =? c)%string)
                               (join_employees (store sv))
               | None => join_employees (store sv)
               end))
    /\ (NoDup (map Employee.id (employees (store sv))) ->
        Permutation items
          (flat_map
             (fun s =>
                match employee_of (store sv) s with
                | Some e =>
                    if listed code e
                    then [list_item
                            (s, Employee.employee_code e, Employee.name e)]
                    else []
                | None => []
                end)
             (fridge_sessions (store sv)))).
Proof.
  eexists. split; [apply list_run|].
  split; [apply order_by_sorted|]. split.
  - apply Permutation_map. rewrite order_by_perm.
    destruct code as [c|]; cbn [Py.truthy_str]; [|reflexivity].
    destruct (c =? "")%string; reflexivity.
  - intros Hnd. rewrite <- (listing_closed_form (store sv) code Hnd).
    apply Permutation_map, order_by_perm.
Qed.

(** C9, counterexample.  In the scenario nobody has the empty string as
    code, yet [sessions_list] given the empty string answers with the
    sessions of E2 and E1. *)
Lemma sessions_list_empty_code :
  employees_by_code "" (store fixture) = []
  /\ exists items,
       snd (endpoint (sessions_list (Some "")) fixture) = inr items
       /\ map SessionListItem.employee_code items = ["E2"; "E1"].
Proof.
  split; [vm_compute; reflexivity|].
  eexists. split; vm_compute; reflexivity.
Qed.

(** C9, instance: the scenario asked for E2 lists session 2 only; asked for
    everybody it lists session 2 (opened later) before session 1. *)
Lemma sessions_list_ordered_witness :
  (exists items,
     endpoint (sessions_list (Some "E2")) fixture = (fixture, inr items)
     /\ StronglySorted not_before items
     /\ map SessionListItem.id items = [2])
  /\ (exists items,
        endpoint (sessions_list None) fixture = (fixture, inr items)
        /\ StronglySorted not_before items
        /\ map SessionListItem.id items = [2; 1]).
Proof.
  split.
  - destruct (sessions_list_ordered fixture (Some "E2"))
      as (items & Hrun & Hsorted & _).
    exists items. split; [exact Hrun|]. split; [exact Hsorted|].
    assert (Hc : snd (endpoint (sessions_list (Some "E2")) fixture)
                 = inr items) by (now rewrite Hrun).
    vm_compute in Hc. injection Hc as <-. reflexivity.
  - destruct (sessions_list_ordered fixture None)
      as (items & Hrun & Hsorted & _).
    exists items. split; [exact Hrun|]. split; [exact Hsorted|].
    assert (Hc : snd (endpoint (sessions_list None) fixture)
                 = inr items) by (now rewrite Hrun).
    vm_compute in Hc. injection Hc as <-. reflexivity.
Defined.

(** * Further properties of the handlers *)

(** ** Keys handed out by the tables *)

Lemma next_id_above (ids : list Z) (x : Z) : In x ids -> x < next_id ids.
Proof.
  unfold next_id. induction ids as [|y ids IH]; cbn [fold_right In]; [easy|].
  intros [->|Hin]; [lia|]. specialize (IH Hin). lia.
Qed.

Lemma next_id_fresh (ids : list Z) : ~ In (next_id ids) ids.
Proof. intros H. apply next_id_above in H. lia. Qed.


(** ** Enrolling an employee *)

Lemma create_conflict_run (utcnow : nat -> Z) sv p e :
  first (employees_by_code (EmployeeCreate.employee_code p) (store sv))
  = Some e ->
  endpoint (create_employee utcnow p) sv
  = (sv, inl (Raised (HTTPError 409 "Código de colaborador já existe"))).
Proof.
  intros H. unfold endpoint, create_employee.
  rewrite bind_query. cbn [pending]. rewrite H.
  unfold raise. destruct sv; reflexivity.
Qed.

(** The row a successful [create_employee] inserts. *)
Lemma create_success_run (utcnow : nat -> Z) sv p :
  first (employees_by_code (EmployeeCreate.employee_code p) (store sv))
  = None ->
  let e := Employee.mk
             (next_id (map Employee.id (employees (store sv))))
             (EmployeeCreate.employee_code p) (EmployeeCreate.name p)
             (EmployeeCreate.email p) (EmployeeCreate.department p)
             None None (Some (EmployeeCreate.face_descriptor p)) true
             (Some (utcnow (clock sv))) (Some (utcnow (S (clock sv)))) in
  endpoint (create_employee utcnow p) sv
  = (mkServer (insert_employee e (store sv)) (S (S (clock sv))),
     inr (EmployeeCreateResponse.mk true (Employee.id e) None)).
Proof.
  intros H. unfold endpoint, create_employee.
  rewrite bind_query. cbn [pending]. rewrite H. reflexivity.
Qed.




(** ** Opening a session *)

Lemma lookup_new_session db row :
  FridgeSession.id row = next_id (map FridgeSession.id (fridge_sessions db)) ->
  first (sessions_by_id (FridgeSession.id row) (insert_session row db))
  = Some row
  /\ forall sid, sid <> FridgeSession.id row ->
       first (sessions_by_id sid (insert_session row db))
       = first (sessions_by_id sid db).
Proof.
  intros Hid. unfold sessions_by_id, insert_session. cbn [fridge_sessions].
  split.
  - apply first_filter_last; [|apply Z.eqb_refl].
    intros y Hy. apply Z.eqb_neq. intros E.
    apply (next_id_fresh (map FridgeSession.id (fridge_sessions db))).
    rewrite <- Hid, <- E. now apply in_map.
  - intros sid Hsid. rewrite filter_app. cbn [filter].
    destruct (Z.eqb_spec (FridgeSession.id row) sid); [congruence|].
    now rewrite app_nil_r.
Qed.






(** ** Opening, closing, closing again *)

(** X5.  Opening and then closing compose: the session id answered by a
    successful [session_start] is accepted by [session_close], whatever
    capture ids come with it: the close never raises an [HTTPException],
    and it answers exactly when the database carries it through
    ([commits]).  An answer carries that id, and the stored row is then
    closed at the clock reading of the close, still opened at the reading
    of the start and owned by the employee of the start answer, with the
    request's capture ids. *)
Theorem start_then_close (utcnow : nat -> Z) (sv sv1 : Server)
        (p : SessionStartRequest.t) (r1 : SessionStartResponse.t)
        (q : SessionCloseRequest.t) :
  endpoint (session_start utcnow p) sv = (sv1, inr r1) ->
  SessionCloseRequest.session_id q = SessionStartResponse.session_id r1 ->
  (forall e : HTTPException,
     snd (endpoint (session_close utcnow q) sv1) <> inl (Raised e))
  /\ ((exists r2, snd (endpoint (session_close utcnow q) sv1) = inr r2)
      <-> commits (store sv1) q = true)
  /\ forall sv2 r2,
       endpoint (session_close utcnow q) sv1 = (sv2, inr r2) ->
       SessionCloseResponse.success r2 = true
       /\ SessionCloseResponse.session_id r2
          = SessionStartResponse.session_id r1
       /\ first (sessions_by_id (SessionStartResponse.session_id r1)
                                (store sv2))
          = Some (FridgeSession.mk (SessionStartResponse.session_id r1)
                    (EmployeeOut.id (SessionStartResponse.employee r1))
                    (SessionStartRequest.device_id p)
                    (Some (utcnow (clock sv))) (Some (utcnow (clock sv1)))
                    (SessionCloseRequest.capture_before_id q)
                    (SessionCloseRequest.capture_after_id q) "closed" None).
Proof.
  intros Hstart Hq.
  destruct (first (employees_by_code
                     (SessionStartRequest.employee_code p) (store sv)))
    as [emp|] eqn:He.
  - rewrite (start_run utcnow sv p emp He) in Hstart.
    injection Hstart as <- <-.
    cbn [SessionStartResponse.session_id SessionStartResponse.employee] in *.
    destruct (lookup_new_session (store sv) (opened_row utcnow sv p emp)
                eq_refl) as [Hnew _].
    assert (Hq' : SessionCloseRequest.session_id q
                  = FridgeSession.id (opened_row utcnow sv p emp))
      by exact Hq.
    clear Hq. rename Hq' into Hq. rewrite <- Hq in Hnew.
    set (sv1 := mkServer (insert_session (opened_row utcnow sv p emp)
                                         (store sv)) (S (clock sv))) in *.
    destruct (close_run utcnow sv1 q _ Hnew)
      as [[Hc [evs [Hrun _]]]|[Hc [n [e [Hrun [_ He']]]]]];
      rewrite Hrun, Hc; cbn [snd].
    + split; [discriminate|]. split; [split; eauto|].
      intros sv2 r2 [= <- <-].
      split; [reflexivity|]. split; [reflexivity|].
      pose proof (lookup_closed_row sv1 q _ evs (utcnow (S (clock sv))) Hnew)
        as Hrow.
      cbv zeta in Hrow. rewrite Hq in Hrow. exact Hrow.
    + split; [destruct He' as [->| ->]; discriminate|].
      split; [split; [intros [r2 H]|]; discriminate|]. discriminate.
  - rewrite (start_unknown utcnow sv p He) in Hstart. discriminate.
Qed.

(** X5, instance: a session opened for E2 in the scenario and closed with
    captures 1 and 2 is stored closed, owned by employee 2. *)
Lemma start_then_close_witness :
  let p := SessionStartRequest.mk "E2" "fridge-2" in
  exists sv1 r1 sv2 r2 row,
    endpoint (session_start fixture_clock p) fixture = (sv1, inr r1)
    /\ endpoint (session_close fixture_clock
                   (SessionCloseRequest.mk
                      (SessionStartResponse.session_id r1) (Some 1) (Some 2)))
                sv1 = (sv2, inr r2)
    /\ first (sessions_by_id (SessionStartResponse.session_id r1) (store sv2))
       = Some row
    /\ FridgeSession.status row = "closed"
    /\ FridgeSession.employee_id row = 2.
Proof.
  cbv zeta. eexists _, _.
  destruct (start_then_close fixture_clock fixture _
              (SessionStartRequest.mk "E2" "fridge-2") _
              (SessionCloseRequest.mk 3 (Some 1) (Some 2))
              ltac:(vm_compute; reflexivity) eq_refl)
    as (_ & _ & Hok).
  eexists _, _, _. split; [vm_compute; reflexivity|].
  split; [vm_compute; reflexivity|].
  split; [exact (proj2 (proj2 (Hok _ _ ltac:(vm_compute; reflexivity))))|].
  split; reflexivity.
Defined.

Lemma commits_same_items db db' p :
  vision_items db = vision_items db' -> commits db p = commits db' p.
Proof.
  intros H. unfold commits, snapshot, items_of_capture. now rewrite H.
Qed.

(** X6.  Closing again with the same request repeats the answer: after a
    successful [session_close], the same call succeeds once more with the
    same consumption list, and appends that list to the ledger a second
    time. *)
Theorem close_again_same_consumed (utcnow : nat -> Z) (sv sv1 : Server)
        (p : SessionCloseRequest.t) (r1 : SessionCloseResponse.t) :
  endpoint (session_close utcnow p) sv = (sv1, inr r1) ->
  exists sv2 r2,
    endpoint (session_close utcnow p) sv1 = (sv2, inr r2)
    /\ r2 = r1
    /\ map event_entry (consumption_events (store sv1))
       = map event_entry (consumption_events (store sv))
         ++ SessionCloseResponse.consumed r1
    /\ map event_entry (consumption_events (store sv2))
       = map event_entry (consumption_events (store sv1))
         ++ SessionCloseResponse.consumed r1.
Proof.
  intros Hfirst.
  destruct (first (sessions_by_id (SessionCloseRequest.session_id p)
                                  (store sv))) as [s|] eqn:Hs.
  - assert (Hc : commits (store sv) p = true).
    { apply (close_returns utcnow sv p s Hs r1). now rewrite Hfirst. }
    destruct (close_ok utcnow sv p s Hs Hc) as (evs & Hrun & Hent & _).
    rewrite Hrun in Hfirst. injection Hfirst as <- <-.
    pose proof (lookup_closed_row sv p s evs (utcnow (clock sv)) Hs) as Hrow.
    cbv zeta in Hrow.
    set (sv1 := mkServer
                  (append_events evs
                     (update_session
                        (FridgeSession.close (utcnow (clock sv))
                           (SessionCloseRequest.capture_before_id p)
                           (SessionCloseRequest.capture_after_id p) s)
                        (store sv)))
                  (S (clock sv) + length evs)) in *.
    assert (Hc1 : commits (store sv1) p = true).
    { rewrite <- Hc. now apply commits_same_items. }
    destruct (close_ok utcnow sv1 p _ Hrow Hc1) as (evs2 & Hrun2 & Hent2 & _).
    change (snapshot (SessionCloseRequest.capture_before_id p) (store sv1))
      with (snapshot (SessionCloseRequest.capture_before_id p) (store sv))
      in Hent2.
    change (snapshot (SessionCloseRequest.capture_after_id p) (store sv1))
      with (snapshot (SessionCloseRequest.capture_after_id p) (store sv))
      in Hent2.
    rewrite <- Hent in Hent2. injection Hent2 as Hent2.
    eexists _, _. split; [exact Hrun2|].
    cbn [store append_events consumption_events sv1
         SessionCloseResponse.consumed FridgeSession.close FridgeSession.id].
    rewrite Hent2. split; [reflexivity|].
    split; [apply map_app|]. rewrite map_app, <- Hent2. reflexivity.
  - rewrite (close_unknown utcnow sv p Hs) in Hfirst. discriminate.
Qed.

(** X6, instance: session 1 of the scenario closed twice with captures 1
    and 2 answers milk 2 and soda 2 both times. *)
Lemma close_again_same_consumed_witness :
  let p := SessionCloseRequest.mk 1 (Some 1) (Some 2) in
  exists sv1 r1 sv2,
    endpoint (session_close fixture_clock p) fixture = (sv1, inr r1)
    /\ endpoint (session_close fixture_clock p) sv1 = (sv2, inr r1)
    /\ SessionCloseResponse.consumed r1
       = [Consumed.mk (Some "milk") 2; Consumed.mk (Some "soda") 2].
Proof.
  cbv zeta. eexists _, _.
  destruct (close_again_same_consumed fixture_clock fixture _
              (SessionCloseRequest.mk 1 (Some 1) (Some 2)) _
              ltac:(vm_compute; reflexivity))
    as (sv2 & r2 & Hrun & -> & _).
  exists sv2. split; [vm_compute; reflexivity|].
  split; [exact Hrun | reflexivity].
Defined.

(** ** What a request does to the tables *)

(** The five ways a request can act on the committed tables. *)
Lemma serve_cases (utcnow : nat -> Z) sv r :
  store (serve utcnow sv r) = store sv
  \/ (exists p e,
        r = PostEmployeeCreate p
        /\ store (serve utcnow sv r) = insert_employee e (store sv)
        /\ Employee.id e = next_id (map Employee.id (employees (store sv)))
        /\ Employee.employee_code e = EmployeeCreate.employee_code p
        /\ Employee.name e = EmployeeCreate.name p
        /\ Employee.is_active e = true
        /\ forall x, In x (employees (store sv)) ->
                     Employee.employee_code x
                     <> EmployeeCreate.employee_code p)
  \/ (exists p emp,
        r = PostSessionStart p
        /\ In emp (employees (store sv))
        /\ store (serve utcnow sv r)
           = insert_session (opened_row utcnow sv p emp) (store sv))
  \/ (exists p s evs,
        r = PostSessionClose p
        /\ first (sessions_by_id (SessionCloseRequest.session_id p)
                                 (store sv)) = Some s
        /\ store (serve utcnow sv r)
           = append_events evs
               (update_session
                  (FridgeSession.close (utcnow (clock sv))
                     (SessionCloseRequest.capture_before_id p)
                     (SessionCloseRequest.capture_after_id p) s)
                  (store sv))
        /\ Forall (fun ev =>
                     ConsumptionEvent.session_id ev = FridgeSession.id s
                     /\ ConsumptionEvent.employee_id ev
                        = FridgeSession.employee_id s) evs)
  \/ (exists rows,
        r = VisionPipeline rows
        /\ store (serve utcnow sv r)
           = mkDatabase (employees (store sv)) (fridge_sessions (store sv))
                        rows (consumption_events (store sv))).
Proof.
  destruct r as [p|p|p|code|rows]; cbn [serve].
  - destruct (first (employees_by_code (EmployeeCreate.employee_code p)
                                       (store sv))) as [e|] eqn:He.
    + left. now rewrite (create_conflict_run utcnow sv p e He).
    + right. left. rewrite (create_success_run utcnow sv p He).
      eexists p, _. split; [reflexivity|]. split; [reflexivity|].
      repeat split. intros x Hx. apply String.eqb_neq.
      exact (proj1 (first_filter_none _ _) He x Hx).
  - destruct (first (employees_by_code
                       (SessionStartRequest.employee_code p) (store sv)))
      as [emp|] eqn:He.
    + right. right. left. rewrite (start_run utcnow sv p emp He).
      exists p, emp. split; [reflexivity|]. split; [|reflexivity].
      exact (proj1 (first_filter_some _ _ _ He)).
    + left. now rewrite (start_unknown utcnow sv p He).
  - destruct (first (sessions_by_id (SessionCloseRequest.session_id p)
                                    (store sv))) as [s|] eqn:Hs.
    + destruct (close_run utcnow sv p s Hs)
        as [[_ [evs [Hrun [_ Hall]]]]|[_ [n [e [Hrun _]]]]];
        rewrite Hrun; [|now left].
      right. right. right. left. exists p, s, evs.
      split; [reflexivity|]. split; [exact Hs|].
      split; [reflexivity | exact Hall].
    + left. now rewrite (close_unknown utcnow sv p Hs).
  - left. now rewrite list_run.
  - right. right. right. right. exists rows. split; reflexivity.
Qed.

Lemma serve_all_cons (utcnow : nat -> Z) sv r rs :
  serve_all utcnow sv (r :: rs) = serve_all utcnow (serve utcnow sv r) rs.
Proof. reflexivity. Qed.

(** A property of the tables kept by every request is kept by every
    sequence of requests. *)
Lemma serve_all_invariant (utcnow : nat -> Z) (P : Database -> Prop) :
  (forall sv r, P (store sv) -> P (store (serve utcnow sv r))) ->
  forall rs sv, P (store sv) -> P (store (serve_all utcnow sv rs)).
Proof.
  intros Hstep. induction rs as [|r rs IH]; intros sv H; [exact H|].
  rewrite serve_all_cons. apply IH, Hstep, H.
Qed.

(** ** Tables that only grow *)

Lemma serve_ledger_grows (utcnow : nat -> Z) sv r :
  exists evs,
    consumption_events (store (serve utcnow sv r))
    = consumption_events (store sv) ++ evs
    /\ Forall (fun ev => exists p,
                 r = PostSessionClose p
                 /\ SessionCloseRequest.session_id p
                    = ConsumptionEvent.session_id ev) evs.
Proof.
  destruct (serve_cases utcnow sv r)
    as [E|[(p & e & _ & E & _)|[(p & emp & _ & _ & E)
       |[(p & s & evs & Hr & Hs & E & Hall)|(rows & _ & E)]]]];
    rewrite E; try (exists []; split; [now rewrite app_nil_r | constructor]).
  exists evs. split; [reflexivity|].
  destruct (sessions_by_id_first _ _ _ Hs) as [Hid _].
  refine (Forall_impl _ _ Hall). intros ev [Hsid _].
  exists p. split; [exact Hr | congruence].
Qed.

(** X7.  The ledger is append-only: whatever requests are served, the
    ledger afterwards is the ledger before followed by new rows; no row is
    altered or removed.  Every new row belongs to a session named by a close
    call of the sequence, so requests other than closes never write to
    it. *)
Theorem ledger_append_only (utcnow : nat -> Z) (rs : list Request)
        (sv : Server) :
  exists added,
    consumption_events (store (serve_all utcnow sv rs))
    = consumption_events (store sv) ++ added
    /\ Forall (fun ev => exists p,
                 In (PostSessionClose p) rs
                 /\ SessionCloseRequest.session_id p
                    = ConsumptionEvent.session_id ev) added.
Proof.
  revert sv. induction rs as [|r rs IH]; intros sv.
  - exists []. split; [now rewrite app_nil_r | constructor].
  - rewrite serve_all_cons.
    destruct (IH (serve utcnow sv r)) as (added & Hadd & Hall).
    destruct (serve_ledger_grows utcnow sv r) as (evs & Hev & Hevs).
    exists (evs ++ added). split.
    + now rewrite Hadd, Hev, app_assoc.
    + apply Forall_app. split.
      * refine (Forall_impl _ _ Hevs). intros ev (p & -> & Hp).
        exists p. split; [now left | exact Hp].
      * refine (Forall_impl _ _ Hall). intros ev (p & Hin & Hp).
        exists p. split; [now right | exact Hp].
Qed.

Lemma serve_employees_grow (utcnow : nat -> Z) sv r :
  exists es,
    employees (store (serve utcnow sv r)) = employees (store sv) ++ es
    /\ Forall (fun e => exists p,
                 r = PostEmployeeCreate p
                 /\ Employee.employee_code e = EmployeeCreate.employee_code p
                 /\ Employee.name e = EmployeeCreate.name p
                 /\ Employee.is_active e = true) es.
Proof.
  destruct (serve_cases utcnow sv r)
    as [E|[(p & e & Hr & E & _ & Hcode & Hname & Hact & _)
       |[(p & emp & _ & _ & E)
       |[(p & s & evs & _ & _ & E & _)|(rows & _ & E)]]]];
    rewrite E; try (exists []; split; [now rewrite app_nil_r | constructor]).
  exists [e]. split; [reflexivity|]. constructor; [|constructor].
  exists p. auto.
Qed.

(** X8.  The employee table is append-only: whatever requests are served,
    the rows present before are still there, unchanged and in place, so no
    request renames, re-codes, deactivates or removes an employee.  Every
    new row was enrolled by a [create_employee] call of the sequence, with
    that call's code and name, and is active. *)
Theorem employees_append_only (utcnow : nat -> Z) (rs : list Request)
        (sv : Server) :
  exists added,
    employees (store (serve_all utcnow sv rs))
    = employees (store sv) ++ added
    /\ Forall (fun e => exists p,
                 In (PostEmployeeCreate p) rs
                 /\ Employee.employee_code e = EmployeeCreate.employee_code p
                 /\ Employee.name e = EmployeeCreate.name p
                 /\ Employee.is_active e = true) added.
Proof.
  revert sv. induction rs as [|r rs IH]; intros sv.
  - exists []. split; [now rewrite app_nil_r | constructor].
  - rewrite serve_all_cons.
    destruct (IH (serve utcnow sv r)) as (added & Hadd & Hall).
    destruct (serve_employees_grow utcnow sv r) as (es & He & Hes).
    exists (es ++ added). split.
    + now rewrite Hadd, He, app_assoc.
    + apply Forall_app. split.
      * refine (Forall_impl _ _ Hes). intros e (p & -> & Hp).
        exists p. split; [now left | exact Hp].
      * refine (Forall_impl _ _ Hall). intros e (p & Hin & Hp).
        exists p. split; [now right | exact Hp].
Qed.

(** ** Session rows over time *)

Lemma serve_lookup_close (utcnow : nat -> Z) sv r sid s :
  first (sessions_by_id sid (store sv)) = Some s ->
  exists s',
    first (sessions_by_id sid (store (serve utcnow sv r))) = Some s'
    /\ (s' = s
        \/ exists p,
             r = PostSessionClose p
             /\ SessionCloseRequest.session_id p = sid
             /\ s' = FridgeSession.close (utcnow (clock sv))
                       (SessionCloseRequest.capture_before_id p)
                       (SessionCloseRequest.capture_after_id p) s).
Proof.
  intros Hs.
  destruct (serve_cases utcnow sv r)
    as [E|[(p & e & _ & E & _)|[(p & emp & _ & _ & E)
       |[(p & s0 & evs & Hr & Hs0 & E & _)|(rows & _ & E)]]]];
    rewrite E.
  - eauto.
  - exists s. split; [exact Hs | now left].
  - exists s. split; [now apply lookup_insert_session | now left].
  - match goal with
    | |- context [append_events _ (update_session ?row ?db)] =>
        change (sessions_by_id sid (append_events evs (update_session row db)))
          with (sessions_by_id sid (update_session row db))
    end.
    rewrite lookup_update, Hs. cbn [FridgeSession.close FridgeSession.id].
    destruct (sessions_by_id_first _ _ _ Hs0) as [Hid _]. rewrite Hid.
    destruct (Z.eqb_spec sid (SessionCloseRequest.session_id p)) as [Eq|Ne].
    + subst sid. assert (s0 = s) by congruence. subst s0.
      eexists. split; [reflexivity|]. right. exists p. auto.
    + eauto.
  - exists s. split; [exact Hs | now left].
Qed.

(** X9.  A stored session is never lost and never changes hands: after
    any sequence of requests the session is still found under its id, with
    the [employee_id], [device_id], [opened_at] and [notes] it had; and if
    the sequence holds no close call for it, the whole row is as it was. *)
Theorem session_row_kept (utcnow : nat -> Z) (rs : list Request)
        (sv : Server) (sid : Z) (s : FridgeSession.t) :
  first (sessions_by_id sid (store sv)) = Some s ->
  exists s',
    first (sessions_by_id sid (store (serve_all utcnow sv rs))) = Some s'
    /\ FridgeSession.id s' = FridgeSession.id s
    /\ FridgeSession.employee_id s' = FridgeSession.employee_id s
    /\ FridgeSession.device_id s' = FridgeSession.device_id s
    /\ FridgeSession.opened_at s' = FridgeSession.opened_at s
    /\ FridgeSession.notes s' = FridgeSession.notes s
    /\ (close_calls sid rs = 0%nat -> s' = s).
Proof.
  revert sv s. induction rs as [|r rs IH]; intros sv s Hs.
  - exists s. repeat split; auto.
  - rewrite serve_all_cons.
    destruct (serve_lookup_close utcnow sv r sid s Hs) as (s1 & H1 & Hcase).
    destruct (IH (serve utcnow sv r) s1 H1)
      as (s' & Hlook & Hid & Heid & Hdev & Hop & Hnotes & Hsame).
    exists s'. split; [exact Hlook|].
    destruct Hcase as [->|(p & -> & Hp & ->)].
    + repeat split; try assumption.
      intros Hc. apply Hsame.
      unfold close_calls in *. cbn [filter] in Hc.
      destruct r; try exact Hc.
      destruct (_ =? sid); [discriminate | exact Hc].
    + cbn [FridgeSession.close FridgeSession.id FridgeSession.employee_id
           FridgeSession.device_id FridgeSession.opened_at
           FridgeSession.notes] in *.
      repeat split; try assumption.
      intros Hc. exfalso. unfold close_calls in Hc. cbn [filter] in Hc.
      rewrite Hp, Z.eqb_refl in Hc. discriminate.
Qed.

(** X9, instance: session 2 of the scenario is untouched by two close
    calls on session 1. *)
Lemma session_row_kept_witness :
  let p := SessionCloseRequest.mk 1 (Some 1) (Some 2) in
  let s := FridgeSession.mk 2 2 "fridge-1" (Some 1005) None None None
                            "open" None in
  first (sessions_by_id 2 (store fixture)) = Some s
  /\ first (sessions_by_id 2
              (store (serve_all fixture_clock fixture
                        [PostSessionClose p; PostSessionClose p])))
     = Some s.
Proof.
  cbv zeta. split; [vm_compute; reflexivity|].
  destruct (session_row_kept fixture_clock
              [PostSessionClose (SessionCloseRequest.mk 1 (Some 1) (Some 2));
               PostSessionClose (SessionCloseRequest.mk 1 (Some 1) (Some 2))]
              fixture 2
              (FridgeSession.mk 2 2 "fridge-1" (Some 1005) None None None
                                "open" None)
              ltac:(vm_compute; reflexivity))
    as (s' & Hlook & _ & _ & _ & _ & _ & Hsame).
  rewrite Hlook. f_equal. apply Hsame. vm_compute. reflexivity.
Defined.

(** ** Keys and references *)

Lemma NoDup_snoc {A} (l : list A) (x : A) :
  NoDup l -> ~ In x l -> NoDup (l ++ [x]).
Proof.
  intros Hl Hx. apply NoDup_app; [exact Hl | repeat constructor; easy |].
  intros y Hy [<-|[]]. contradiction.
Qed.

Lemma NoDup_map_inj {A B} (f : A -> B) (l : list A) (a b : A) :
  NoDup (map f l) -> In a l -> In b l -> f a = f b -> a = b.
Proof.
  induction l as [|x l IH]; cbn [map In]; [easy|].
  intros Hnd Ha Hb Hab. inversion Hnd as [|? ? Hout Hnd']; subst.
  destruct Ha as [->|Ha], Hb as [->|Hb]; auto.
  - exfalso. apply Hout. rewrite Hab. now apply in_map.
  - exfalso. apply Hout. rewrite <- Hab. now apply in_map.
Qed.

Lemma update_keeps_ids (row : FridgeSession.t) (l : list FridgeSession.t) :
  map FridgeSession.id
      (map (fun r => if FridgeSession.id r =? FridgeSession.id row
                     then row else r) l)
  = map FridgeSession.id l.
Proof.
  rewrite map_map. apply map_ext. intros r.
  destruct (Z.eqb_spec (FridgeSession.id r) (FridgeSession.id row));
    congruence.
Qed.

Lemma serve_keyed (utcnow : nat -> Z) sv r :
  keyed (store sv) -> keyed (store (serve utcnow sv r)).
Proof.
  intros (Hid & Hcode & Hsid).
  destruct (serve_cases utcnow sv r)
    as [E|[(p & e & _ & E & Heid & Hecode & _ & _ & Hnew)
       |[(p & emp & _ & _ & E)
       |[(p & s & evs & _ & _ & E & _)|(rows & _ & E)]]]];
    rewrite E; unfold keyed;
    cbn [insert_employee insert_session append_events update_session
         employees fridge_sessions].
  - auto.
  - rewrite !map_app. cbn [map]. split; [|split; [|exact Hsid]].
    + apply NoDup_snoc; [exact Hid|]. rewrite Heid. apply next_id_fresh.
    + apply NoDup_snoc; [exact Hcode|]. rewrite Hecode.
      rewrite in_map_iff. intros (x & Hx & Hin). exact (Hnew x Hin Hx).
  - rewrite map_app. cbn [map opened_row FridgeSession.id].
    split; [exact Hid|]. split; [exact Hcode|].
    apply NoDup_snoc; [exact Hsid | apply next_id_fresh].
  - rewrite update_keeps_ids. auto.
  - auto.
Qed.

(** X10.  Keys stay unique: if employee ids, employee codes and session
    ids are pairwise distinct, they are still pairwise distinct after any
    sequence of requests.  In particular [create_employee] never lets two
    employees share a code. *)
Theorem keys_stay_unique (utcnow : nat -> Z) (rs : list Request)
        (sv : Server) :
  keyed (store sv) -> keyed (store (serve_all utcnow sv rs)).
Proof.
  apply (serve_all_invariant utcnow keyed). intros sv0 r. apply serve_keyed.
Qed.

(** X10, instance: the empty database has unique keys, hence so has the
    state the scenario's requests lead to. *)
Lemma keys_stay_unique_witness :
  keyed (store boot)
  /\ keyed (store (serve_all fixture_clock boot fixture_requests)).
Proof.
  assert (H : keyed (store boot)) by (repeat split; constructor).
  split; [exact H|].
  exact (keys_stay_unique fixture_clock fixture_requests boot H).
Defined.

Lemma serve_lifecycle (utcnow : nat -> Z) sv r :
  Forall lifecycle (fridge_sessions (store sv)) ->
  Forall lifecycle (fridge_sessions (store (serve utcnow sv r))).
Proof.
  intros H.
  destruct (serve_cases utcnow sv r)
    as [E|[(p & e & _ & E & _)|[(p & emp & _ & _ & E)
       |[(p & s & evs & _ & _ & E & _)|(rows & _ & E)]]]];
    rewrite E;
    cbn [insert_employee insert_session append_events update_session
         fridge_sessions]; try exact H.
  - apply Forall_app. split; [exact H|]. constructor; [|constructor].
    left. repeat split.
  - rewrite Forall_forall in *. intros x Hx.
    apply in_map_iff in Hx. destruct Hx as (r0 & <- & Hr0).
    destruct (_ =? _); [|auto].
    right. split; [reflexivity | discriminate].
Qed.

(** X11.  The life cycle of session rows is an invariant: if every
    session row is either open with no close time and no capture ids, or
    closed with a close time, then this still holds after any sequence of
    requests. *)
Theorem lifecycle_kept (utcnow : nat -> Z) (rs : list Request)
        (sv : Server) :
  Forall lifecycle (fridge_sessions (store sv)) ->
  Forall lifecycle (fridge_sessions (store (serve_all utcnow sv rs))).
Proof.
  apply (serve_all_invariant utcnow
           (fun db => Forall lifecycle (fridge_sessions db))).
  intros sv0 r. apply serve_lifecycle.
Qed.

(** X11, instance: every session reached from the empty database by the
    scenario's requests and a close of session 1 obeys the life cycle. *)
Lemma lifecycle_kept_witness :
  let rs := fixture_requests
            ++ [PostSessionClose (SessionCloseRequest.mk 1 (Some 1) (Some 2))]
  in
  Forall lifecycle (fridge_sessions (store boot))
  /\ Forall lifecycle
       (fridge_sessions (store (serve_all fixture_clock boot rs))).
Proof.
  cbv zeta. split; [constructor|].
  exact (lifecycle_kept fixture_clock
           (fixture_requests
            ++ [PostSessionClose (SessionCloseRequest.mk 1 (Some 1) (Some 2))])
           boot (Forall_nil _)).
Defined.

Lemma serve_references (utcnow : nat -> Z) sv r :
  keyed (store sv) /\ sessions_owned (store sv) /\ ledger_backed (store sv) ->
  keyed (store (serve utcnow sv r))
  /\ sessions_owned (store (serve utcnow sv r))
  /\ ledger_backed (store (serve utcnow sv r)).
Proof.
  intros (Hkey & Hown & Hback).
  split; [now apply serve_keyed|].
  destruct Hkey as (_ & _ & Hsid).
  destruct (serve_cases utcnow sv r)
    as [E|[(p & e & _ & E & _)|[(p & emp & _ & Hemp & E)
       |[(p & s & evs & _ & Hs & E & Hall)|(rows & _ & E)]]]];
    rewrite E; unfold sessions_owned, ledger_backed;
    cbn [insert_employee insert_session append_events update_session
         employees fridge_sessions consumption_events].
  - auto.
  - split; [|exact Hback]. intros x Hx.
    destruct (Hown x Hx) as (e0 & He0 & Hid). exists e0.
    split; [apply in_or_app; now left | exact Hid].
  - split.
    + intros x Hx. apply in_app_or in Hx. destruct Hx as [Hx|[<-|[]]].
      * exact (Hown x Hx).
      * exists emp. split; [exact Hemp | reflexivity].
    + intros ev Hev. destruct (Hback ev Hev) as (x & Hx & Hrest).
      exists x. split; [apply in_or_app; now left | exact Hrest].
  - destruct (sessions_by_id_first _ _ _ Hs) as [_ Hin].
    set (row := FridgeSession.close (utcnow (clock sv))
                  (SessionCloseRequest.capture_before_id p)
                  (SessionCloseRequest.capture_after_id p) s).
    set (upd := fun r0 => if FridgeSession.id r0 =? FridgeSession.id row
                          then row else r0).
    assert (Hrow : In row (map upd (fridge_sessions (store sv)))).
    { apply in_map_iff. exists s. split; [|exact Hin].
      unfold upd. subst row. cbn [FridgeSession.close FridgeSession.id].
      now rewrite Z.eqb_refl. }
    split.
    + intros x Hx. apply in_map_iff in Hx. destruct Hx as (r0 & <- & Hr0).
      unfold upd. destruct (_ =? _); [|exact (Hown r0 Hr0)].
      exact (Hown s Hin).
    + intros ev Hev. apply in_app_or in Hev. destruct Hev as [Hev|Hev].
      * destruct (Hback ev Hev) as (x & Hx & Hid & Heid & Hst).
        exists (upd x). split; [now apply in_map|].
        unfold upd.
        destruct (Z.eqb_spec (FridgeSession.id x) (FridgeSession.id row))
          as [Eq|Ne]; [|auto].
        assert (x = s) by (apply (NoDup_map_inj FridgeSession.id _ _ _ Hsid Hx Hin);
                           exact Eq).
        subst x. repeat split; assumption.
      * rewrite Forall_forall in Hall. destruct (Hall ev Hev) as [Hid Heid].
        exists row. split; [exact Hrow|].
        repeat split; [now rewrite Hid | now rewrite Heid].
  - auto.
Qed.

(** X12.  References stay valid: in a database with unique keys where
    every session points to an employee row and every ledger row names a
    closed session together with that session's employee, the same holds
    after any sequence of requests.  So a ledger row never outlives or
    contradicts its session, and [employee_id] of a ledger row is always
    the owner of the session it names. *)
Theorem references_kept (utcnow : nat -> Z) (rs : list Request)
        (sv : Server) :
  keyed (store sv) -> sessions_owned (store sv) ->
  ledger_backed (store sv) ->
  sessions_owned (store (serve_all utcnow sv rs))
  /\ ledger_backed (store (serve_all utcnow sv rs)).
Proof.
  intros Hk Ho Hb.
  apply (serve_all_invariant utcnow
           (fun db => keyed db /\ sessions_owned db /\ ledger_backed db)).
  - intros sv0 r. apply serve_references.
  - auto.
Qed.

(** X12, instance: the scenario's requests followed by a close of
    session 1, from the empty database. *)
Lemma references_kept_witness :
  let rs := fixture_requests
            ++ [PostSessionClose (SessionCloseRequest.mk 1 (Some 1) (Some 2))]
  in
  keyed (store boot) /\ sessions_owned (store boot)
  /\ ledger_backed (store boot)
  /\ sessions_owned (store (serve_all fixture_clock boot rs))
  /\ ledger_backed (store (serve_all fixture_clock boot rs)).
Proof.
  cbv zeta.
  assert (Hk : keyed (store boot)) by (repeat split; constructor).
  assert (Ho : sessions_owned (store boot)) by (intros s []).
  assert (Hb : ledger_backed (store boot)) by (intros ev []).
  split; [exact Hk|]. split; [exact Ho|]. split; [exact Hb|].
  exact (references_kept fixture_clock
           (fixture_requests
            ++ [PostSessionClose (SessionCloseRequest.mk 1 (Some 1) (Some 2))])
           boot Hk Ho Hb).
Defined.

Lemma reached_consistent (utcnow : nat -> Z) (rs : list Request) :
  keyed (store (serve_all utcnow boot rs))
  /\ sessions_owned (store (serve_all utcnow boot rs))
  /\ ledger_backed (store (serve_all utcnow boot rs)).
Proof.
  apply (serve_all_invariant utcnow
           (fun db => keyed db /\ sessions_owned db /\ ledger_backed db)).
  - intros sv0 r. apply serve_references.
  - split; [repeat split; constructor|]. split; [intros s []|intros ev []].
Qed.

(** ** Listing every session *)

Lemma owner_found db s :
  sessions_owned db -> In s (fridge_sessions db) ->
  exists e, employee_of db s = Some e.
Proof.
  intros Hown Hs. destruct (Hown s Hs) as (e & He & Hid).
  unfold employee_of.
  destruct (first _) as [x|] eqn:Hx; [eauto|].
  pose proof (proj1 (first_filter_none _ _) Hx e He) as Hf. cbn beta in Hf.
  rewrite Hid, Z.eqb_refl in Hf. discriminate.
Qed.

(** X13.  Where keys are unique and every session points to an employee
    row, [sessions_list] without a code, or with the empty string, lists
    every session exactly once: the session ids of the answer are the
    session ids of the table up to order, and every item is a session row
    joined with the code and name of the employee that owns it. *)
Theorem sessions_list_complete (sv : Server) (code : option string) :
  keyed (store sv) -> sessions_owned (store sv) ->
  Py.truthy_str code = false ->
  exists items,
    endpoint (sessions_list code) sv = (sv, inr items)
    /\ Permutation (map SessionListItem.id items)
                   (map FridgeSession.id (fridge_sessions (store sv)))
    /\ forall it, In it items ->
         exists s e,
           In s (fridge_sessions (store sv)) /\ In e (employees (store sv))
           /\ Employee.id e = FridgeSession.employee_id s
           /\ it = list_item (s, Employee.employee_code e, Employee.name e).
Proof.
  intros (Hid & _ & _) Hown Hcode.
  eexists. split; [apply list_run|]. rewrite Hcode. split.
  - rewrite (Permutation_map _ (Permutation_map list_item
               (order_by_perm (join_employees (store sv))))).
    pose proof (listing_closed_form (store sv) code Hid) as Hform.
    rewrite Hcode in Hform. rewrite Hform. clear Hform.
    assert (Hl : forall e, listed code e = true).
    { intros e. destruct code as [c|]; [|reflexivity]. cbn in Hcode.
      apply negb_false_iff in Hcode. cbn. now rewrite Hcode. }
    assert (Hall : forall s, In s (fridge_sessions (store sv)) ->
                     exists e, employee_of (store sv) s = Some e)
      by (intros s Hs; now apply owner_found).
    induction (fridge_sessions (store sv)) as [|s l IH]; [reflexivity|].
    cbn [flat_map map]. destruct (Hall s (or_introl eq_refl)) as (e & ->).
    rewrite Hl. cbn [app map list_item SessionListItem.id].
    rewrite IH; [reflexivity|]. intros x Hx. apply Hall. now right.
  - intros it Hit.
    apply (Permutation_in _ (Permutation_map list_item
             (order_by_perm (join_employees (store sv))))) in Hit.
    apply in_map_iff in Hit. destruct Hit as (row & <- & Hrow).
    unfold join_employees in Hrow. apply in_flat_map in Hrow.
    destruct Hrow as (s & Hs & Hrow). apply in_map_iff in Hrow.
    destruct Hrow as (e & <- & He). apply filter_In in He.
    destruct He as [He Heq]. apply Z.eqb_eq in Heq.
    exists s, e. auto.
Qed.

(** X13, instance: the state the scenario's requests lead to lists its two
    sessions. *)
Lemma sessions_list_complete_witness :
  let sv := serve_all fixture_clock boot fixture_requests in
  keyed (store sv) /\ sessions_owned (store sv)
  /\ exists items,
       endpoint (sessions_list None) sv = (sv, inr items)
       /\ Permutation (map SessionListItem.id items) [1; 2].
Proof.
  cbv zeta.
  destruct (reached_consistent fixture_clock fixture_requests)
    as (Hk & Ho & _).
  split; [exact Hk|]. split; [exact Ho|].
  destruct (sessions_list_complete
              (serve_all fixture_clock boot fixture_requests) None Hk Ho
              eq_refl) as (items & Hrun & Hperm & _).
  exists items. split; [exact Hrun|].
  assert (Hids : map FridgeSession.id
                   (fridge_sessions
                      (store (serve_all fixture_clock boot fixture_requests)))
                 = [1; 2]) by (vm_compute; reflexivity).
  rewrite <- Hids. exact Hperm.
Defined.

(** ** Time stamps *)

Lemma timely_later (utcnow : nat -> Z) sv sv' :
  fridge_sessions (store sv') = fridge_sessions (store sv) ->
  (clock sv <= clock sv')%nat ->
  timely utcnow sv -> timely utcnow sv'.
Proof.
  intros Hs Hc H s Hin. rewrite Hs in Hin.
  destruct (H s Hin) as (i & Hi & Hop & Hcl).
  exists i. split; [lia|]. split; [exact Hop|].
  destruct Hcl as [Hcl|(j & Hj & Hcl)]; [now left|].
  right. exists j. split; [lia | exact Hcl].
Qed.

Lemma serve_timely (utcnow : nat -> Z) sv r :
  timely utcnow sv -> timely utcnow (serve utcnow sv r).
Proof.
  intros H. destruct r as [p|p|p|code|rows]; cbn [serve].
  - destruct (first (employees_by_code (EmployeeCreate.employee_code p)
                                       (store sv))) as [e|] eqn:He.
    + now rewrite (create_conflict_run utcnow sv p e He).
    + rewrite (create_success_run utcnow sv p He). cbn [fst].
      apply (timely_later utcnow sv); [reflexivity | cbn; lia | exact H].
  - destruct (first (employees_by_code
                       (SessionStartRequest.employee_code p) (store sv)))
      as [emp|] eqn:He.
    + rewrite (start_run utcnow sv p emp He). cbn [fst].
      intros s Hs. cbn [store insert_session fridge_sessions clock] in *.
      apply in_app_or in Hs. destruct Hs as [Hs|[<-|[]]].
      * destruct (H s Hs) as (i & Hi & Hop & Hcl).
        exists i. split; [lia|]. split; [exact Hop|].
        destruct Hcl as [Hcl|(j & Hj & Hcl)]; [now left|].
        right. exists j. split; [lia | exact Hcl].
      * exists (clock sv). split; [lia|]. split; [reflexivity | now left].
    + now rewrite (start_unknown utcnow sv p He).
  - destruct (first (sessions_by_id (SessionCloseRequest.session_id p)
                                    (store sv))) as [s0|] eqn:Hs0.
    + destruct (close_run utcnow sv p s0 Hs0)
        as [[_ [evs [Hrun _]]]|[_ [n [e [Hrun [Hn _]]]]]];
        rewrite Hrun; cbn [fst].
      * intros s Hs.
        cbn [store append_events update_session fridge_sessions clock] in *.
        apply in_map_iff in Hs. destruct Hs as (r0 & <- & Hr0).
        destruct (sessions_by_id_first _ _ _ Hs0) as [_ Hin0].
        destruct (_ =? _).
        -- destruct (H s0 Hin0) as (i & Hi & Hop & _).
           exists i. split; [lia|]. split; [exact Hop|].
           right. exists (clock sv). split; [lia | reflexivity].
        -- destruct (H r0 Hr0) as (i & Hi & Hop & Hcl).
           exists i. split; [lia|]. split; [exact Hop|].
           destruct Hcl as [Hcl|(j & Hj & Hcl)]; [now left|].
           right. exists j. split; [lia | exact Hcl].
      * apply (timely_later utcnow sv); [reflexivity | cbn; lia | exact H].
    + now rewrite (close_unknown utcnow sv p Hs0).
  - now rewrite list_run.
  - apply (timely_later utcnow sv); [reflexivity | cbn; lia | exact H].
Qed.

Lemma serve_all_timely (utcnow : nat -> Z) (rs : list Request) :
  forall sv, timely utcnow sv -> timely utcnow (serve_all utcnow sv rs).
Proof.
  induction rs as [|r rs IH]; intros sv H; [exact H|].
  rewrite serve_all_cons. apply IH, serve_timely, H.
Qed.

(** X14.  With a clock that never runs backwards, no session is closed
    before it was opened: in every state reached from the empty database,
    every session has an [opened_at], and its [closed_at], when set, is not
    earlier. *)
Theorem closed_after_opened (utcnow : nat -> Z) (rs : list Request)
        (s : FridgeSession.t) :
  (forall i j, (i <= j)%nat -> utcnow i <= utcnow j) ->
  In s (fridge_sessions (store (serve_all utcnow boot rs))) ->
  exists t0,
    FridgeSession.opened_at s = Some t0
    /\ forall t1, FridgeSession.closed_at s = Some t1 -> t0 <= t1.
Proof.
  intros Hmono Hs.
  assert (Hboot : timely utcnow boot) by (intros x []).
  destruct (serve_all_timely utcnow rs boot Hboot s Hs)
    as (i & _ & Hop & Hcl).
  exists (utcnow i). split; [exact Hop|].
  intros t1 Ht1. destruct Hcl as [Hcl|(j & Hj & Hcl)]; [congruence|].
  rewrite Hcl in Ht1. injection Ht1 as <-. apply Hmono. lia.
Qed.

(** X14, instance: session 1 of the scenario, closed, was opened at 1004
    and closed at 1006. *)
Lemma closed_after_opened_witness :
  let rs := fixture_requests
            ++ [PostSessionClose (SessionCloseRequest.mk 1 (Some 1) (Some 2))]
  in
  (forall i j, (i <= j)%nat -> fixture_clock i <= fixture_clock j)
  /\ In fixture_closed_session
        (fridge_sessions (store (serve_all fixture_clock boot rs)))
  /\ exists t0,
       FridgeSession.opened_at fixture_closed_session = Some t0
       /\ forall t1,
            FridgeSession.closed_at fixture_closed_session = Some t1 ->
            t0 <= t1.
Proof.
  cbv zeta.
  assert (Hmono : forall i j, (i <= j)%nat ->
                              fixture_clock i <= fixture_clock j)
    by (intros i j Hij; unfold fixture_clock; lia).
  assert (Hin : In fixture_closed_session
                   (fridge_sessions
                      (store (serve_all fixture_clock boot
                                (fixture_requests
                                 ++ [PostSessionClose
                                       (SessionCloseRequest.mk 1 (Some 1)
                                                               (Some 2))])))))
    by (vm_compute; left; reflexivity).
  split; [exact Hmono|]. split; [exact Hin|].
  exact (closed_after_opened fixture_clock _ fixture_closed_session
           Hmono Hin).
Defined.


(** ** Captures with repeated labels *)

Lemma get_set {V} (d : Dict.t (V := V)) k v k' :
  Dict.get (Dict.set d k v) k'
  = if Dict.key_eqb k k' then Some v else Dict.get d k'.
Proof.
  induction d as [|[k0 v0] d IH]; cbn [Dict.set Dict.get]; [reflexivity|].
  destruct (DictFacts.key_eqb_spec k0 k) as [->|Hne]; cbn [Dict.get].
  - destruct (Dict.key_eqb k k'); reflexivity.
  - rewrite IH. destruct (DictFacts.key_eqb_spec k0 k') as [->|Hne'];
      [|reflexivity].
    destruct (DictFacts.key_eqb_spec k k'); [congruence | reflexivity].
Qed.

Lemma get_app {V} (a b : Dict.t (V := V)) k :
  Dict.get (a ++ b) k
  = match Dict.get a k with
    | Some v => Some v
    | None => Dict.get b k
    end.
Proof.
  induction a as [|[k0 v0] a IH]; cbn [app Dict.get]; [reflexivity|].
  destruct (Dict.key_eqb k0 k); [reflexivity | exact IH].
Qed.

Lemma get_fold_set {V} (kvs : list (Dict.key * V)) :
  forall (d : Dict.t (V := V)) k,
    Dict.get (fold_left (fun d kv => Dict.set d (fst kv) (snd kv)) kvs d) k
    = match Dict.get (rev kvs) k with
      | Some v => Some v
      | None => Dict.get d k
      end.
Proof.
  induction kvs as [|[k0 v0] kvs IH]; intros d k; cbn [fold_left rev];
    [reflexivity|].
  rewrite IH, get_app, get_set. cbn [fst snd Dict.get].
  destruct (Dict.get (rev kvs) k); [reflexivity|].
  destruct (Dict.key_eqb k0 k); reflexivity.
Qed.

Lemma get_label_quantities (rows : list VisionItem.t) l :
  Dict.get (map (fun i => (VisionItem.label i, VisionItem.quantity i)) rows) l
  = option_map VisionItem.quantity
      (first (filter (fun i => Dict.key_eqb (VisionItem.label i) l) rows)).
Proof.
  induction rows as [|i rows IH]; cbn [map Dict.get filter]; [reflexivity|].
  destruct (Dict.key_eqb (VisionItem.label i) l); [reflexivity | exact IH].
Qed.

(** X15.  When a capture has several rows for one label, the snapshot
    built by [session_close] keeps the quantity of the last of them: the
    dictionary maps a label to the quantity of the last row of the capture
    that carries it, and has no entry for a label that no row carries. *)
Theorem snapshot_last_row_wins (cid : option Z) (db : Database)
        (l : Dict.key) :
  Dict.get (snapshot cid db) l
  = option_map VisionItem.quantity
      (first (filter (fun i => Dict.key_eqb (VisionItem.label i) l)
                     (rev (items_of_capture cid db)))).
Proof.
  unfold snapshot, label_quantities, Dict.comprehension.
  rewrite get_fold_set, <- map_rev, get_label_quantities.
  now destruct (option_map _ _).
Qed.

(** ** Listing employees *)

Lemma insert_by_name_perm name_leb e rows :
  Permutation (insert_by_name name_leb e rows) (e :: rows).
Proof.
  induction rows as [|x rest IH]; cbn [insert_by_name]; [reflexivity|].
  destruct (name_leb _ _); [reflexivity|].
  rewrite IH. apply perm_swap.
Qed.

Lemma order_by_name_perm name_leb rows :
  Permutation (order_by_name name_leb rows) rows.
Proof.
  induction rows as [|x rest IH]; cbn; [reflexivity|].
  fold (order_by_name name_leb rest).
  rewrite insert_by_name_perm. now constructor.
Qed.

Lemma insert_by_name_sorted name_leb e rows :
  (forall a b, name_leb a b = false -> name_leb b a = true) ->
  Sorted (fun x y => name_leb (Employee.name x) (Employee.name y) = true)
         rows ->
  Sorted (fun x y => name_leb (Employee.name x) (Employee.name y) = true)
         (insert_by_name name_leb e rows).
Proof.
  intros Htotal.
  induction rows as [|x rest IH]; intros Hs; cbn [insert_by_name].
  - repeat constructor.
  - inversion Hs as [|? ? Hrest Hhd]; subst.
    destruct (name_leb (Employee.name e) (Employee.name x)) eqn:Hcmp.
    + constructor; [exact Hs|]. now constructor.
    + constructor; [now apply IH|].
      apply Htotal in Hcmp.
      destruct rest as [|y rest']; cbn [insert_by_name].
      * now constructor.
      * inversion Hhd; subst.
        destruct (name_leb (Employee.name e) (Employee.name y));
          now constructor.
Qed.

Lemma order_by_name_sorted name_leb rows :
  (forall a b, name_leb a b = false -> name_leb b a = true) ->
  Sorted (fun x y => name_leb (EmployeeOut.name x) (EmployeeOut.name y)
                     = true)
         (map EmployeeOut.from_orm (order_by_name name_leb rows)).
Proof.
  intros Htotal.
  assert (H : Sorted (fun x y => name_leb (Employee.name x)
                                          (Employee.name y) = true)
                     (order_by_name name_leb rows)).
  { induction rows as [|e l IH]; [constructor|].
    cbn. now apply insert_by_name_sorted. }
  induction H as [|x l Hl IH Hhd]; cbn [map]; constructor; [exact IH|].
  destruct Hhd; cbn [map]; constructor. assumption.
Qed.

Lemma list_employees_run name_leb sv :
  endpoint (list_employees name_leb) sv
  = (sv, inr (map EmployeeOut.from_orm
                (order_by_name name_leb (employees (store sv))))).
Proof. destruct sv. reflexivity. Qed.

(** X16.  [list_employees] never fails and changes nothing; its answer
    holds every employee row exactly once, as an [EmployeeOut], and, for
    any total order the collation of [employees.name] may be, the answer is
    in ascending order of name. *)
Theorem list_employees_all (name_leb : string -> string -> bool)
        (sv : Server) :
  exists outs,
    endpoint (list_employees name_leb) sv = (sv, inr outs)
    /\ Permutation outs (map EmployeeOut.from_orm (employees (store sv)))
    /\ ((forall a b, name_leb a b = false -> name_leb b a = true) ->
        Sorted (fun x y => name_leb (EmployeeOut.name x) (EmployeeOut.name y)
                           = true) outs).
Proof.
  eexists. split; [apply list_employees_run|]. split.
  - apply Permutation_map, order_by_name_perm.
  - apply order_by_name_sorted.
Qed.


(** ** What the consumption list depends on *)

Lemma snapshot_get_row cid db l q :
  Dict.get (snapshot cid db) l = Some q ->
  exists i, In i (items_of_capture cid db)
            /\ VisionItem.label i = l /\ VisionItem.quantity i = q.
Proof.
  unfold snapshot, label_quantities, Dict.comprehension.
  rewrite get_fold_set, <- map_rev, get_label_quantities.
  destruct (first _) as [i|] eqn:Hi; cbn [option_map Dict.get Dict.empty];
    [|discriminate].
  intros [= <-]. apply first_filter_some in Hi. destruct Hi as [Hin Hl].
  exists i. split; [now apply in_rev|]. split; [|reflexivity].
  now destruct (DictFacts.key_eqb_spec (VisionItem.label i) l).
Qed.

Lemma commits_same_captures db db' p :
  items_of_capture (SessionCloseRequest.capture_before_id p) db
  = items_of_capture (SessionCloseRequest.capture_before_id p) db' ->
  items_of_capture (SessionCloseRequest.capture_after_id p) db
  = items_of_capture (SessionCloseRequest.capture_after_id p) db' ->
  commits db p = commits db' p.
Proof. intros Hb Ha. unfold commits, snapshot. now rewrite Hb, Ha. Qed.

(** X18.  The outcome of a close depends on the rows of the two captures
    only: of two close calls with the same request, in any two states that
    know the session and hold the same rows for the before-capture and for
    the after-capture, one answers exactly when the other does, and the two
    answers carry the same consumption list, whatever the ledger, the
    sessions, the employees and the clock are. *)
Theorem consumed_depends_on_captures (utcnow utcnow' : nat -> Z)
        (sv sv' : Server) (p : SessionCloseRequest.t)
        (s s' : FridgeSession.t) :
  first (sessions_by_id (SessionCloseRequest.session_id p) (store sv))
  = Some s ->
  first (sessions_by_id (SessionCloseRequest.session_id p) (store sv'))
  = Some s' ->
  items_of_capture (SessionCloseRequest.capture_before_id p) (store sv)
  = items_of_capture (SessionCloseRequest.capture_before_id p) (store sv') ->
  items_of_capture (SessionCloseRequest.capture_after_id p) (store sv)
  = items_of_capture (SessionCloseRequest.capture_after_id p) (store sv') ->
  ((exists r, snd (endpoint (session_close utcnow p) sv) = inr r)
   <-> (exists r', snd (endpoint (session_close utcnow' p) sv') = inr r'))
  /\ forall r r',
       snd (endpoint (session_close utcnow p) sv) = inr r ->
       snd (endpoint (session_close utcnow' p) sv') = inr r' ->
       SessionCloseResponse.consumed r = SessionCloseResponse.consumed r'.
Proof.
  intros Hs Hs' Hb Ha.
  pose proof (commits_same_captures _ _ p Hb Ha) as Hcc.
  destruct (close_run utcnow sv p s Hs)
    as [[Hc [evs [Hrun [Hent _]]]]|[Hc [n [e [Hrun _]]]]];
    (destruct (close_run utcnow' sv' p s' Hs')
      as [[Hc' [evs' [Hrun' [Hent' _]]]]|[Hc' [n' [e' [Hrun' _]]]]]);
    try congruence; rewrite Hrun, Hrun'; cbn [snd].
  - split; [split; eauto|]. intros r r' [= <-] [= <-].
    cbn [SessionCloseResponse.consumed].
    unfold snapshot in Hent, Hent'. rewrite Hb, Ha in Hent.
    rewrite <- Hent in Hent'. now injection Hent'.
  - split; [split; intros [r H]; discriminate|]. discriminate.
Qed.

(** X18, instance: session 1 of the scenario, open or already closed,
    closed with captures 1 and 2. *)
Lemma consumed_depends_on_captures_witness :
  let p := SessionCloseRequest.mk 1 (Some 1) (Some 2) in
  exists r r',
    snd (endpoint (session_close fixture_clock p) fixture) = inr r
    /\ snd (endpoint (session_close (fun _ => 0) p) fixture_closed) = inr r'
    /\ SessionCloseResponse.consumed r = SessionCloseResponse.consumed r'.
Proof.
  cbv zeta. eexists _, _.
  split; [vm_compute; reflexivity|]. split; [vm_compute; reflexivity|].
  exact (proj2 (consumed_depends_on_captures fixture_clock (fun _ => 0)
           fixture fixture_closed
           (SessionCloseRequest.mk 1 (Some 1) (Some 2))
           fixture_session fixture_closed_session
           ltac:(vm_compute; reflexivity) ltac:(vm_compute; reflexivity)
           ltac:(vm_compute; reflexivity) ltac:(vm_compute; reflexivity))
           _ _ ltac:(vm_compute; reflexivity) ltac:(vm_compute; reflexivity)).
Defined.

(** X19.  When no row of the after-capture has a negative quantity, a
    close never reports more units of a label than the before-snapshot
    holds for it: every entry of the consumption list of an answer has a
    quantity between 1 and the before quantity of its label. *)
Theorem consumption_bounded (utcnow : nat -> Z) (sv : Server)
        (p : SessionCloseRequest.t) (s : FridgeSession.t) :
  first (sessions_by_id (SessionCloseRequest.session_id p) (store sv))
  = Some s ->
  (forall i q,
     In i (items_of_capture (SessionCloseRequest.capture_after_id p)
                            (store sv)) ->
     VisionItem.quantity i = Some q -> 0 <= q) ->
  forall sv' resp,
    endpoint (session_close utcnow p) sv = (sv', inr resp) ->
    Forall
      (fun c =>
         exists qb,
           Dict.get (snapshot (SessionCloseRequest.capture_before_id p)
                              (store sv))
                    (Consumed.label c) = Some (Some qb)
           /\ 0 < Consumed.quantity c <= qb)
      (SessionCloseResponse.consumed resp).
Proof.
  intros Hs Hnonneg sv' resp Hret.
  assert (Hc : commits (store sv) p = true).
  { apply (close_returns utcnow sv p s Hs resp). now rewrite Hret. }
  destruct (close_ok utcnow sv p s Hs Hc) as (evs & Hrun & Hent & _).
  rewrite Hrun in Hret. injection Hret as _ <-.
  cbn [SessionCloseResponse.consumed].
  destruct (both_captures p);
    [|injection Hent as ->; constructor].
  symmetry in Hent.
  rewrite Forall_forall. intros c Hin.
  destruct (depletions_label _ _ _ _ Hent Hin)
    as (qb & qa & Hb & Ha & Hq & Hpos).
  exists qb. split.
  - apply DictFacts.In_get; [apply snapshot_keys_NoDup | exact Hb].
  - split; [lia|].
    assert (Hqa : 0 <= qa).
    { unfold Dict.get_default in Ha.
      destruct (Dict.get _ (Consumed.label c)) as [v|] eqn:Hget.
      - subst v. apply snapshot_get_row in Hget.
        destruct Hget as (i & Hi & _ & Hqi). exact (Hnonneg i qa Hi Hqi).
      - injection Ha as <-. lia. }
    lia.
Qed.

(** X19, instance: the scenario closed with captures 1 and 2, where milk
    goes from 5 to 3 and soda from 2 to nothing. *)
Lemma consumption_bounded_witness :
  let p := SessionCloseRequest.mk 1 (Some 1) (Some 2) in
  first (sessions_by_id 1 (store fixture)) = Some fixture_session
  /\ exists sv' resp,
       endpoint (session_close fixture_clock p) fixture = (sv', inr resp)
       /\ Forall
            (fun c =>
               exists qb,
                 Dict.get (snapshot (Some 1) (store fixture))
                          (Consumed.label c) = Some (Some qb)
                 /\ 0 < Consumed.quantity c <= qb)
            (SessionCloseResponse.consumed resp).
Proof.
  cbv zeta. split; [reflexivity|].
  eexists _, _. split; [vm_compute; reflexivity|].
  eapply (consumption_bounded fixture_clock fixture
            (SessionCloseRequest.mk 1 (Some 1) (Some 2)) fixture_session
            eq_refl).
  - vm_compute. intros i q [<-|[<-|[]]] [= <-]; discriminate.
  - vm_compute. reflexivity.
Defined.
